(** * Emotion fusion core: label normalisation, text extraction, weighted and
      majority fusion, and multi-frame facial aggregation.

    A shallow embedding of [src/lib/emotion-fusion.ts] (bundled in
    [src/src/lib/actions.ts]) and of the facial-detection helper module
    ([src/unnamed/part_002]), together with the properties the specification
    states about them.

    Modelling conventions.
    - A JavaScript [string] is a Rocq [string] of ASCII characters.
      [toLowerCase], [toUpperCase] and [trim] act on the ASCII letters and the
      ASCII white space; characters above 127 are left alone.  On a string of
      ASCII characters ([asciiOnly]) the primitives are those of JavaScript;
      a property whose proof looks inside [trim] or the case conversions is
      stated for such strings.
    - A JavaScript [number] is a binary64 float ([PrimFloat.float]); [+], [-],
      [/], [>] and [<] are the IEEE operations of the kernel.
    - An object typed [Record<string, T>] is the list of its own properties in
      creation order, as its TypeScript type says (members inherited from
      [Object.prototype] are not part of it).  [Object.entries] enumerates the
      array-index keys first, in ascending numeric order, and then the other
      keys in creation order, as ECMAScript prescribes.  The dictionaries of
      the source are object literals, so a lookup under a key that names a
      member of [Object.prototype] ([inherited]) finds that member and not
      [undefined]; the embedding describes the lookups under every other key,
      and a property that rests on a lookup is stated for labels that are not
      such names ([ownLabels]).
    - An optional field ([T | null | undefined]) is an [option]; the tests
      [if (x)] of the source are written out as truthiness tests.
    - The per-frame classifier is external: the outcome of its i-th invocation
      is given by a function [nat -> option EmotionScore], and [numFrames]
      counts the iterations of the sampling loop.  The pauses between
      invocations are not modelled.
    - A default parameter is passed explicitly ([strategy], [numFrames]). *)

From Stdlib Require Import String Ascii List Bool Arith NArith ZArith Lia.
From Stdlib Require Import Floats Uint63.
From Stdlib Require Import Permutation.
Import ListNotations.

Set Warnings "-inexact-float".

Open Scope string_scope.
Open Scope list_scope.

(* ================================================================== *)
(** ** JavaScript string primitives *)

Module JsString.

Definition code (c : ascii) : N := N_of_ascii c.

(** [String.prototype.toLowerCase], one character. *)
Definition lower_char (c : ascii) : ascii :=
  if (65 <=? code c)%N && (code c <=? 90)%N
  then ascii_of_N (code c + 32) else c.

(** [String.prototype.toUpperCase], one character. *)
Definition upper_char (c : ascii) : ascii :=
  if (97 <=? code c)%N && (code c <=? 122)%N
  then ascii_of_N (code c - 32) else c.

(** White space removed by [trim]: TAB, LF, VT, FF, CR and SPACE. *)
Definition is_ws (c : ascii) : bool :=
  ((9 <=? code c)%N && (code c <=? 13)%N) || (code c =? 32)%N.

Fixpoint toLowerCase (s : string) : string :=
  match s with
  | EmptyString => EmptyString
  | String c r => String (lower_char c) (toLowerCase r)
  end.

Fixpoint trimStart (s : string) : string :=
  match s with
  | EmptyString => EmptyString
  | String c r => if is_ws c then trimStart r else s
  end.

Fixpoint trimEnd (s : string) : string :=
  match s with
  | EmptyString => EmptyString
  | String c r =>
      match trimEnd r with
      | EmptyString => if is_ws c then EmptyString else String c EmptyString
      | t => String c t
      end
  end.

Definition trim (s : string) : string := trimEnd (trimStart s).

(** [s.startsWith(p)]. *)
Fixpoint startsWith (p s : string) : bool :=
  match p, s with
  | EmptyString, _ => true
  | String _ _, EmptyString => false
  | String a p', String b s' => Ascii.eqb a b && startsWith p' s'
  end.

(** [s.includes(p)]. *)
Fixpoint includes (p s : string) : bool :=
  match s with
  | EmptyString => startsWith p EmptyString
  | String _ r => startsWith p s || includes p r
  end.

(** [s.charAt(0).toUpperCase() + s.slice(1)]. *)
Definition capitalizeFirst (s : string) : string :=
  match s with
  | EmptyString => EmptyString
  | String c r => String (upper_char c) r
  end.

(** Truthiness of a string: every string but the empty one. *)
Definition truthy_string (s : string) : bool := negb (String.eqb s "").

End JsString.

Import JsString.

(* ================================================================== *)
(** ** The taxonomy, the normaliser and the extractor *)

Definition STANDARD_EMOTIONS : list string :=
  [ "Happy"; "Sad"; "Angry"; "Fearful"; "Surprised"; "Disgusted";
    "Neutral"; "Anxious"; "Excited"; "Calm"; "Frustrated"; "Confused" ].

Definition normalizeEmotion (emotion : string) : string :=
  let normalized := trim emotion in
  match find (fun std => String.eqb (toLowerCase std) (toLowerCase normalized))
             STANDARD_EMOTIONS with
  | Some m => m
  | None =>
      let lowerEmotion := toLowerCase normalized in
      if includes "happ" lowerEmotion || includes "joy" lowerEmotion then "Happy"
      else if includes "sad" lowerEmotion || includes "depress" lowerEmotion then "Sad"
      else if includes "ang" lowerEmotion || includes "mad" lowerEmotion then "Angry"
      else if includes "fear" lowerEmotion || includes "scared" lowerEmotion then "Fearful"
      else if includes "surpris" lowerEmotion || includes "shock" lowerEmotion then "Surprised"
      else if includes "disgust" lowerEmotion then "Disgusted"
      else if includes "neutr" lowerEmotion || includes "calm" lowerEmotion then "Neutral"
      else if includes "anxi" lowerEmotion || includes "worr" lowerEmotion then "Anxious"
      else if includes "excit" lowerEmotion then "Excited"
      else if includes "frustrat" lowerEmotion then "Frustrated"
      else if includes "confus" lowerEmotion then "Confused"
      else capitalizeFirst normalized
  end.

Definition extractEmotionFromText (text : string) : option string :=
  if negb (truthy_string text) then None
  else
    let lowerText := toLowerCase text in
    match find (fun emotion => includes (toLowerCase emotion) lowerText)
               STANDARD_EMOTIONS with
    | Some emotion => Some emotion
    | None =>
        if includes "happy" lowerText || includes "joy" lowerText then Some "Happy"
        else if includes "sad" lowerText || includes "unhappy" lowerText then Some "Sad"
        else if includes "angry" lowerText || includes "upset" lowerText then Some "Angry"
        else if includes "afraid" lowerText || includes "scared" lowerText then Some "Fearful"
        else if includes "surprised" lowerText || includes "amazed" lowerText then Some "Surprised"
        else if includes "disgusted" lowerText then Some "Disgusted"
        else if includes "neutral" lowerText || includes "calm" lowerText then Some "Neutral"
        else if includes "anxious" lowerText || includes "worried" lowerText then Some "Anxious"
        else if includes "excited" lowerText then Some "Excited"
        else if includes "frustrated" lowerText then Some "Frustrated"
        else if includes "confused" lowerText then Some "Confused"
        else None
    end.

(* ================================================================== *)
(** ** JavaScript numbers *)

Module JsNumber.

Open Scope float_scope.

(** [a > b]. *)
Definition gt (a b : float) : bool := b <? a.

(** Truthiness of a number: every number but [0], [-0] and [NaN]. *)
Definition truthy_number (a : float) : bool := negb (a =? 0) && negb (is_nan a).

(** [Math.min(a, b)]: [NaN] if an argument is, and [-0] below [+0]. *)
Definition Math_min (a b : float) : float :=
  if is_nan a || is_nan b then nan
  else if a <? b then a
  else if b <? a then b
  else if (a =? 0) && (b =? 0)
       then (if (1 / a <? 0) || (1 / b <? 0) then neg_zero else zero)
       else a.

(** The length of an array, as a number. *)
Definition of_nat (n : nat) : float := of_uint63 (Uint63.of_Z (Z.of_nat n)).

End JsNumber.

Import JsNumber.

(* ================================================================== *)
(** ** Objects used as dictionaries, and arrays *)

Module Dict.

(** The array index a property key denotes, if any: a canonical decimal
    numeral below [2^32 - 1]. *)
Definition is_digit (c : ascii) : bool :=
  (48 <=? code c)%N && (code c <=? 57)%N.

Fixpoint digits_value (s : string) (acc : N) : option N :=
  match s with
  | EmptyString => Some acc
  | String c r =>
      if is_digit c then digits_value r (acc * 10 + (code c - 48))%N else None
  end.

Definition array_index (k : string) : option N :=
  match k with
  | EmptyString => None
  | String c r =>
      if (code c =? 48)%N
      then (if String.eqb r "" then Some 0%N else None)
      else match digits_value k 0 with
           | Some n => if (n <? 4294967295)%N then Some n else None
           | None => None
           end
  end.

Definition is_array_index (k : string) : bool :=
  match array_index k with Some _ => true | None => false end.

Section WithValue.

Context {T : Type}.

(** Own properties, in creation order. *)
Definition t := list (string * T).

Definition empty : t := [].

(** [d[k]] ([None] is [undefined]). *)
Fixpoint get (d : t) (k : string) : option T :=
  match d with
  | [] => None
  | (k', v) :: r => if String.eqb k' k then Some v else get r k
  end.

(** [d[k] = v]: an existing property keeps its place, a new one comes last. *)
Fixpoint set (d : t) (k : string) (v : T) : t :=
  match d with
  | [] => [(k, v)]
  | (k', v') :: r =>
      if String.eqb k' k then (k', v) :: r else (k', v') :: set r k v
  end.

Fixpoint insert_by_index (i : N) (e : string * T) (l : list (N * (string * T)))
  : list (N * (string * T)) :=
  match l with
  | [] => [(i, e)]
  | (j, e') :: r =>
      if (i <? j)%N then (i, e) :: l else (j, e') :: insert_by_index i e r
  end.

Fixpoint index_entries (d : t) : list (N * (string * T)) :=
  match d with
  | [] => []
  | e :: r =>
      match array_index (fst e) with
      | Some i => insert_by_index i e (index_entries r)
      | None => index_entries r
      end
  end.

(** [Object.entries(d)]: array-index keys in ascending numeric order, then
    the other keys in creation order. *)
Definition entries (d : t) : list (string * T) :=
  map snd (index_entries d)
  ++ filter (fun e => negb (is_array_index (fst e))) d.

(** [Object.values(d)]. *)
Definition values (d : t) : list T := map snd (entries d).

End WithValue.

Arguments t : clear implicits.

End Dict.

Module JsArray.

Section WithElement.

Context {A : Type}.

Fixpoint sort_insert (compareFn : A -> A -> float) (x : A) (l : list A) : list A :=
  match l with
  | [] => [x]
  | y :: r =>
      if gt (compareFn x y) 0 then y :: sort_insert compareFn x r else x :: l
  end.

(** [l.sort(compareFn)]: a stable sort; [x] moves behind [y] only when
    [compareFn(x, y) > 0]. *)
Definition sort (compareFn : A -> A -> float) (l : list A) : list A :=
  fold_right (sort_insert compareFn) [] l.

(** [l.reduce(f)] without an initial value ([None]: the TypeError on an
    empty array). *)
Definition reduce1 (f : A -> A -> A) (l : list A) : option A :=
  match l with
  | [] => None
  | x :: r => Some (fold_left f r x)
  end.

End WithElement.

End JsArray.

(* ================================================================== *)
(** ** The fusion engine ([emotion-fusion.ts]) *)

Record EmotionScore := mkEmotionScore {
  emotion : string;
  confidence : float
}.

Record MultiModalEmotionInput := mkInput {
  facialEmotion : option EmotionScore;
  voiceEmotion : option string;
  textEmotion : option string
}.

Module Breakdown.
Record t := mk {
  facial : option string;
  voice : option string;
  text : option string
}.
Definition empty : t := mk None None None.
Definition set_facial (b : t) (e : string) : t := mk (Some e) (voice b) (text b).
Definition set_voice (b : t) (e : string) : t := mk (facial b) (Some e) (text b).
Definition set_text (b : t) (e : string) : t := mk (facial b) (voice b) (Some e).
End Breakdown.

Module Fused.
Record FusedEmotionResult := mk {
  finalEmotion : string;
  confidence : float;
  breakdown : Breakdown.t;
  fusionMethod : string
}.
End Fused.

(** [emotionVotes[emotion] || 0]. *)
Definition votes_or_zero (emotionVotes : Dict.t float) (emotion : string) : float :=
  match Dict.get emotionVotes emotion with
  | Some v => if truthy_number v then v else 0%float
  | None => 0%float
  end.

(** [emotionVotes[emotion] = (emotionVotes[emotion] || 0) + weight]. *)
Definition addVote (emotionVotes : Dict.t float) (emotion : string) (weight : float)
  : Dict.t float :=
  Dict.set emotionVotes emotion (votes_or_zero emotionVotes emotion + weight)%float.

(** [extractEmotionFromText(s) || s]. *)
Definition extracted_or_raw (s : string) : string :=
  match extractEmotionFromText s with
  | Some e => if truthy_string e then e else s
  | None => s
  end.

(** [if (input.voiceEmotion)], [if (input.textEmotion)]: the field holds a
    non-empty string. *)
Definition present_string (field : option string) : option string :=
  match field with
  | Some s => if truthy_string s then Some s else None
  | None => None
  end.

(** [(a, b) => b[1] - a[1]]. *)
Definition byVotesDescending (a b : string * float) : float :=
  (snd b - snd a)%float.

Definition facialWeight (fe : EmotionScore) : float :=
  if gt (confidence fe) 0.6 then 0.5%float else 0.3%float.

(** The accumulator and the breakdown after the three [if] blocks of
    [weightedVotingFusion]. *)
Definition weightedVotes (input : MultiModalEmotionInput)
  : Dict.t float * Breakdown.t :=
  let emotionVotes : Dict.t float := Dict.empty in
  let breakdown := Breakdown.empty in
  let '(emotionVotes, breakdown) :=
    match facialEmotion input with
    | Some fe =>
        let emotion := normalizeEmotion (emotion fe) in
        (addVote emotionVotes emotion (facialWeight fe),
         Breakdown.set_facial breakdown emotion)
    | None => (emotionVotes, breakdown)
    end in
  let '(emotionVotes, breakdown) :=
    match present_string (voiceEmotion input) with
    | Some v =>
        let emotion := normalizeEmotion (extracted_or_raw v) in
        (addVote emotionVotes emotion 0.3, Breakdown.set_voice breakdown emotion)
    | None => (emotionVotes, breakdown)
    end in
  let '(emotionVotes, breakdown) :=
    match present_string (textEmotion input) with
    | Some t =>
        let emotion := normalizeEmotion (extracted_or_raw t) in
        (addVote emotionVotes emotion 0.2, Breakdown.set_text breakdown emotion)
    | None => (emotionVotes, breakdown)
    end in
  (emotionVotes, breakdown).

Definition weightedVotingFusion (input : MultiModalEmotionInput)
  : Fused.FusedEmotionResult :=
  let '(emotionVotes, breakdown) := weightedVotes input in
  let sortedEmotions := JsArray.sort byVotesDescending (Dict.entries emotionVotes) in
  match sortedEmotions with
  | [] => Fused.mk "Neutral" 0.5 breakdown "weighted-voting"
  | (finalEmotion, score) :: _ =>
      Fused.mk finalEmotion (Math_min score 1.0) breakdown "weighted-voting"
  end.

(** The accumulator and the breakdown after the three [if] blocks of
    [majorityVotingFusion]. *)
Definition majorityVotes (input : MultiModalEmotionInput)
  : Dict.t float * Breakdown.t :=
  let emotionVotes : Dict.t float := Dict.empty in
  let breakdown := Breakdown.empty in
  let '(emotionVotes, breakdown) :=
    match facialEmotion input with
    | Some fe =>
        let emotion := normalizeEmotion (emotion fe) in
        (addVote emotionVotes emotion 1, Breakdown.set_facial breakdown emotion)
    | None => (emotionVotes, breakdown)
    end in
  let '(emotionVotes, breakdown) :=
    match present_string (voiceEmotion input) with
    | Some v =>
        let emotion := normalizeEmotion (extracted_or_raw v) in
        (addVote emotionVotes emotion 1, Breakdown.set_voice breakdown emotion)
    | None => (emotionVotes, breakdown)
    end in
  let '(emotionVotes, breakdown) :=
    match present_string (textEmotion input) with
    | Some t =>
        let emotion := normalizeEmotion (extracted_or_raw t) in
        (addVote emotionVotes emotion 1, Breakdown.set_text breakdown emotion)
    | None => (emotionVotes, breakdown)
    end in
  (emotionVotes, breakdown).

Definition majorityVotingFusion (input : MultiModalEmotionInput)
  : Fused.FusedEmotionResult :=
  let '(emotionVotes, breakdown) := majorityVotes input in
  let sortedEmotions := JsArray.sort byVotesDescending (Dict.entries emotionVotes) in
  match sortedEmotions with
  | [] => Fused.mk "Neutral" 0.5 breakdown "majority-voting"
  | (finalEmotion, votes) :: _ =>
      let totalVotes :=
        fold_left (fun a b => (a + b)%float) (Dict.values emotionVotes) 0%float in
      Fused.mk finalEmotion (votes / totalVotes)%float breakdown "majority-voting"
  end.

Inductive Strategy := weighted | majority.

Definition fuseEmotions (input : MultiModalEmotionInput) (strategy : Strategy)
  : Fused.FusedEmotionResult :=
  match strategy with
  | majority => majorityVotingFusion input
  | weighted => weightedVotingFusion input
  end.

(* ================================================================== *)
(** ** The facial detector helpers ([facial-emotion-detector.ts]) *)

Module MultiFrame.
Record result := mk {
  emotion : string;
  confidence : float;
  allEmotions : Dict.t float
}.
End MultiFrame.

(** The [for] loop of [detectFacialExpressionMultiFrame]: invocations
    [i], [i+1], ... of the classifier, [remaining] of them, the detections
    pushed in that order. *)
Fixpoint collectDetections (classifier : nat -> option EmotionScore)
  (i remaining : nat) : list EmotionScore :=
  match remaining with
  | O => []
  | S remaining' =>
      match classifier i with
      | Some detection => detection :: collectDetections classifier (S i) remaining'
      | None => collectDetections classifier (S i) remaining'
      end
  end.

(** One step of [detections.forEach]: create the group if it is missing, then
    push the confidence. *)
Definition pushConfidence (emotionCounts : Dict.t (list float))
  (detection : EmotionScore) : Dict.t (list float) :=
  let emotionCounts :=
    match Dict.get emotionCounts (emotion detection) with
    | Some _ => emotionCounts
    | None => Dict.set emotionCounts (emotion detection) []
    end in
  match Dict.get emotionCounts (emotion detection) with
  | Some confidences =>
      Dict.set emotionCounts (emotion detection) (confidences ++ [confidence detection])
  | None => emotionCounts
  end.

(** [confidences.reduce((a, b) => a + b, 0) / confidences.length]. *)
Definition average (confidences : list float) : float :=
  (fold_left (fun a b => (a + b)%float) confidences 0 / of_nat (length confidences))%float.

(** [(prev, current) => current[1] > prev[1] ? current : prev]. *)
Definition higher (prev current : string * float) : string * float :=
  if gt (snd current) (snd prev) then current else prev.

(** The part of [detectFacialExpressionMultiFrame] after the sampling loop.
    The last [None] stands for the TypeError of [reduce] on an empty array,
    which a non-empty list of detections never reaches. *)
Definition aggregateDetections (detections : list EmotionScore)
  : option MultiFrame.result :=
  match detections with
  | [] => None
  | _ =>
      let emotionCounts := fold_left pushConfidence detections Dict.empty in
      let avgEmotions :=
        fold_left (fun avg e => Dict.set avg (fst e) (average (snd e)))
                  (Dict.entries emotionCounts) Dict.empty in
      match JsArray.reduce1 higher (Dict.entries avgEmotions) with
      | Some dominantEmotion =>
          Some (MultiFrame.mk (fst dominantEmotion) (snd dominantEmotion) avgEmotions)
      | None => None
      end
  end.

Definition detectFacialExpressionMultiFrame
  (classifier : nat -> option EmotionScore) (numFrames : nat)
  : option MultiFrame.result :=
  aggregateDetections (collectDetections classifier 0 numFrames).

Definition emotionMap : Dict.t string :=
  [ ("neutral", "Neutral"); ("happy", "Happy"); ("sad", "Sad");
    ("angry", "Angry"); ("fearful", "Fearful"); ("disgusted", "Disgusted");
    ("surprised", "Surprised") ].

Definition mapFaceApiEmotion (faceApiEmotion : string) : string :=
  match Dict.get emotionMap faceApiEmotion with
  | Some e => if truthy_string e then e else faceApiEmotion
  | None => faceApiEmotion
  end.

(* ================================================================== *)
(** ** The result formatter ([emotion-fusion.ts]) *)

(** [l.join(sep)]. *)
Fixpoint join (sep : string) (l : list string) : string :=
  match l with
  | [] => ""
  | x :: r =>
      match r with
      | [] => x
      | _ :: _ => String.append x (String.append sep (join sep r))
      end
  end.

(** Truthiness of an optional string field: present and not empty. *)
Definition truthy_field (field : option string) : bool :=
  match field with
  | Some s => truthy_string s
  | None => false
  end.

(** [if (field) items.push(`${tag}${field}`)]. *)
Definition pushTagged (items : list string) (tag : string) (field : option string)
  : list string :=
  match field with
  | Some s => if truthy_string s then items ++ [String.append tag s] else items
  | None => items
  end.

Definition formatEmotionResult (result : Fused.FusedEmotionResult) : string :=
  let parts := [Fused.finalEmotion result] in
  let b := Fused.breakdown result in
  let parts :=
    if truthy_field (Breakdown.facial b) || truthy_field (Breakdown.voice b)
       || truthy_field (Breakdown.text b)
    then
      let breakdown := [] in
      let breakdown := pushTagged breakdown "Face: " (Breakdown.facial b) in
      let breakdown := pushTagged breakdown "Voice: " (Breakdown.voice b) in
      let breakdown := pushTagged breakdown "Text: " (Breakdown.text b) in
      if Nat.ltb 0 (length breakdown)
      then parts ++ [String.append "(" (String.append (join ", " breakdown) ")")]
      else parts
    else parts in
  join " " parts.

(* ================================================================== *)
(** ** Single-frame detection ([facial-emotion-detector.ts]) *)

(** The settlement of a promise of an external service. *)
Inductive Settled (A : Type) : Type :=
| Resolved (value : A)
| Rejected.

Arguments Resolved {A} value.
Arguments Rejected {A}.

(** [loadFaceApiModels]: the module variable [modelsLoaded] is threaded
    through; the three booleans tell whether the loads of the tiny face
    detector, the expression net and the landmark net resolve.  The result is
    the settlement of the returned promise and the new [modelsLoaded]. *)
Definition loadFaceApiModels (modelsLoaded : bool)
  (tinyFaceDetector faceExpressionNet faceLandmark68Net : bool)
  : Settled unit * bool :=
  if modelsLoaded then (Resolved tt, modelsLoaded)
  else if tinyFaceDetector && faceExpressionNet && faceLandmark68Net
       then (Resolved tt, true)
       else (Rejected, modelsLoaded).

(** [detectFacialExpression]: [detection] is the settlement of the face-api
    call, [None] when no face is found and otherwise the expressions object.
    Every exception inside the [try] block ends in [null]. *)
Definition detectFacialExpression (modelsLoaded : bool)
  (tinyFaceDetector faceExpressionNet faceLandmark68Net : bool)
  (detection : Settled (option (Dict.t float)))
  : option EmotionScore * bool :=
  let '(loaded, modelsLoaded) :=
    if negb modelsLoaded
    then loadFaceApiModels modelsLoaded tinyFaceDetector faceExpressionNet
           faceLandmark68Net
    else (Resolved tt, modelsLoaded) in
  match loaded with
  | Rejected => (None, modelsLoaded)
  | Resolved _ =>
      match detection with
      | Rejected => (None, modelsLoaded)
      | Resolved None => (None, modelsLoaded)
      | Resolved (Some expressions) =>
          let emotionEntries := Dict.entries expressions in
          match JsArray.reduce1 higher emotionEntries with
          | Some dominantEmotion =>
              (Some (mkEmotionScore (fst dominantEmotion) (snd dominantEmotion)),
               modelsLoaded)
          | None => (None, modelsLoaded)
          end
      end
  end.

(* ================================================================== *)
(** ** The server-side analysis flow ([analyze-user-emotion.ts]) *)

Module AnalyzeUserEmotion.

Record Input := mkInput {
  videoDataUri : option string;
  audioDataUri : option string;
  text : string;
  facialEmotion : option EmotionScore
}.

Record Output := mkOutput {
  emotionalState : string;
  outFacialEmotion : option string;
  voiceEmotion : option string;
  textEmotion : option string;
  fusedEmotion : string
}.

(** [a || b] on an optional string and a string. *)
Definition or_else (a : option string) (b : string) : string :=
  match a with
  | Some s => if truthy_string s then s else b
  | None => b
  end.

(** [field && `${tag}${field}`], kept by [filter(Boolean)] when truthy. *)
Definition tagged (tag : string) (field : option string) : list string :=
  match field with
  | Some s => if truthy_string s then [String.append tag s] else []
  | None => []
  end.

(** The flow body.  [voicePrompt] and [textPrompt] are the settlements of the
    two model calls, each resolving to [output?.emotion]. *)
Definition analyzeUserEmotionFlow (input : Input)
  (voicePrompt textPrompt : Settled (option string)) : Output :=
  let resultFacial :=
    match facialEmotion input with
    | Some fe => Some (emotion fe)
    | None => None
    end in
  let resultVoice :=
    if truthy_field (audioDataUri input)
    then match voicePrompt with
         | Resolved e => e
         | Rejected => None
         end
    else None in
  let resultText :=
    if truthy_string (text input)
    then match textPrompt with
         | Resolved e => e
         | Rejected => None
         end
    else None in
  let fused := or_else resultFacial (or_else resultVoice (or_else resultText "Neutral")) in
  let emotions :=
    tagged "Face: " resultFacial ++ tagged "Voice: " resultVoice
    ++ tagged "Text: " resultText in
  let state :=
    if Nat.ltb 0 (length emotions)
    then String.append fused
           (String.append " (" (String.append (join ", " emotions) ")"))
    else or_else (Some fused) "Neutral" in
  mkOutput state resultFacial resultVoice resultText fused.

End AnalyzeUserEmotion.

(* ================================================================== *)
(** ** The emotion steps of [processInteraction] ([chat-interface.tsx]) *)

(** From the single-frame result and the two strings of the analysis flow to
    the fused result and the string displayed. *)
Definition processInteractionEmotion (faceResult : option EmotionScore)
  (voiceEmotion textEmotion : option string)
  : Fused.FusedEmotionResult * string :=
  let detectedFacialEmotion :=
    match faceResult with
    | Some r => Some (mkEmotionScore (mapFaceApiEmotion (emotion r)) (confidence r))
    | None => None
    end in
  let fusedResult :=
    fuseEmotions
      (mkInput detectedFacialEmotion (present_string voiceEmotion)
               (present_string textEmotion))
      weighted in
  let displayEmotion := formatEmotionResult fusedResult in
  (fusedResult, displayEmotion).

(* ================================================================== *)
(** ** Vocabulary of the specification *)

(** The three channels, in the order the fusion engine visits them. *)
Inductive Channel := Facial | Voice | Text.

(** The normalised label of a channel, when the channel is present. *)
Definition channelLabel (input : MultiModalEmotionInput) (c : Channel)
  : option string :=
  match c with
  | Facial =>
      option_map (fun fe => normalizeEmotion (emotion fe)) (facialEmotion input)
  | Voice =>
      option_map (fun v => normalizeEmotion (extracted_or_raw v))
                 (present_string (voiceEmotion input))
  | Text =>
      option_map (fun t => normalizeEmotion (extracted_or_raw t))
                 (present_string (textEmotion input))
  end.

(** The entry of a breakdown under a channel's key. *)
Definition breakdownKey (b : Breakdown.t) (c : Channel) : option string :=
  match c with
  | Facial => Breakdown.facial b
  | Voice => Breakdown.voice b
  | Text => Breakdown.text b
  end.

(** A taxonomy member's name occurs in a text, case-insensitively. *)
Definition occursIn (name text : string) : bool :=
  includes (toLowerCase name) (toLowerCase text).

(** The extractor's keyword table: the keywords in the order the
    specification lists them, each rule with the label it stands for. *)
Definition extractorKeywords : list (list string * string) :=
  [ (["happy"; "joy"], "Happy");
    (["sad"; "unhappy"], "Sad");
    (["angry"; "upset"], "Angry");
    (["afraid"; "scared"], "Fearful");
    (["surprised"; "amazed"], "Surprised");
    (["disgusted"], "Disgusted");
    (["neutral"; "calm"], "Neutral");
    (["anxious"; "worried"], "Anxious");
    (["excited"], "Excited");
    (["frustrated"], "Frustrated");
    (["confused"], "Confused") ].

(** A rule of the table matches a text: one of its keywords occurs in it. *)
Definition ruleMatches (text : string) (rule : list string * string) : bool :=
  existsb (fun kw => includes kw (toLowerCase text)) (fst rule).

(** The keywords the normaliser tries before "calm". *)
Definition keywordsBeforeCalm : list string :=
  [ "happ"; "joy"; "sad"; "depress"; "ang"; "mad"; "fear"; "scared";
    "surpris"; "shock"; "disgust" ].

(** The seven labels of face-api.js. *)
Definition faceApiLabels : list string :=
  [ "neutral"; "happy"; "sad"; "angry"; "fearful"; "disgusted"; "surprised" ].

(** The weight a channel casts under the weighted strategy, as the
    specification gives it. *)
Definition channelWeight (input : MultiModalEmotionInput) (c : Channel) : float :=
  match c with
  | Facial =>
      match facialEmotion input with
      | Some fe => if (0.6 <? confidence fe)%float then 0.5%float else 0.3%float
      | None => 0%float
      end
  | Voice => 0.3%float
  | Text => 0.2%float
  end.

(** The (label, weight) pairs of the present channels: facial, voice, text. *)
Definition contributions (input : MultiModalEmotionInput) : list (string * float) :=
  flat_map (fun c => match channelLabel input c with
                     | Some l => [(l, channelWeight input c)]
                     | None => []
                     end)
           [Facial; Voice; Text].

(** The weight a label has accumulated: the weights cast on it, added up in
    the order they were cast. *)
Definition accumulated (label : string) (cs : list (string * float)) : float :=
  fold_left (fun acc c => if String.eqb (fst c) label then (acc + snd c)%float else acc)
            cs 0%float.

(** A weight clamped to a maximum of 1. *)
Definition clampToOne (w : float) : float :=
  if (1 <? w)%float then 1%float else w.

(** Labels in the order of their first occurrence. *)
Fixpoint firstSeen (labels : list string) : list string :=
  match labels with
  | [] => []
  | l :: r => l :: filter (fun x => negb (String.eqb l x)) (firstSeen r)
  end.

(** The raw string a channel brings, when the channel is present. *)
Definition channelRaw (input : MultiModalEmotionInput) (c : Channel)
  : option string :=
  match c with
  | Facial => option_map emotion (facialEmotion input)
  | Voice => present_string (voiceEmotion input)
  | Text => present_string (textEmotion input)
  end.

(** The confidences of the samples that carry a label, in sample order. *)
Definition confidencesOf (label : string) (detections : list EmotionScore)
  : list float :=
  map confidence (filter (fun d => String.eqb (emotion d) label) detections).

(** The groups of the samples: each label seen, in the order of its first
    occurrence, with the confidences reported for it. *)
Definition groupsOf (detections : list EmotionScore) : Dict.t (list float) :=
  map (fun l => (l, confidencesOf l detections))
      (firstSeen (map emotion detections)).

(** The two samples of the specification's aggregation example. *)
Definition happy08 : EmotionScore := mkEmotionScore "Happy" 0.8.

(** The facial channel is present with a confidence above 0.6. *)
Definition confidentFace (input : MultiModalEmotionInput) : bool :=
  match facialEmotion input with
  | Some fe => (0.6 <? confidence fe)%float
  | None => false
  end.

(** The label of the first present channel: facial, else voice, else text. *)
Definition firstPresentLabel (input : MultiModalEmotionInput) : option string :=
  match channelLabel input Facial with
  | Some l => Some l
  | None =>
      match channelLabel input Voice with
      | Some l => Some l
      | None => channelLabel input Text
      end
  end.

(** All present channels carry the same label. *)
Definition unanimous (input : MultiModalEmotionInput) : Prop :=
  forall c c' l l',
    channelLabel input c = Some l -> channelLabel input c' = Some l' -> l = l'.

(** The display tag of a channel in the formatted result. *)
Definition channelTag (c : Channel) : string :=
  match c with
  | Facial => "Face: "
  | Voice => "Voice: "
  | Text => "Text: "
  end.

(** The keywords of the normaliser's second step, in priority order. *)
Definition normalizerKeywords : list string :=
  [ "happ"; "joy"; "sad"; "depress"; "ang"; "mad"; "fear"; "scared";
    "surpris"; "shock"; "disgust"; "neutr"; "calm"; "anxi"; "worr"; "excit";
    "frustrat"; "confus" ].

(** A keyword that does not end with white space, and one that neither
    starts nor ends with white space. *)
Fixpoint ends_solid (p : string) : bool :=
  match p with
  | EmptyString => false
  | String c EmptyString => negb (is_ws c)
  | String _ r => ends_solid r
  end.

Definition solid (p : string) : bool :=
  match p with
  | EmptyString => false
  | String c _ => negb (is_ws c) && ends_solid p
  end.

(** A string of ASCII characters, on which [trim], [toLowerCase] and
    [toUpperCase] are exactly the JavaScript primitives. *)
Fixpoint asciiOnly (s : string) : bool :=
  match s with
  | EmptyString => true
  | String c r => (code c <? 128)%N && asciiOnly r
  end.

(** The names of the members that every object literal inherits from
    [Object.prototype]. *)
Definition objectPrototypeKeys : list string :=
  [ "constructor"; "toString"; "toLocaleString"; "valueOf"; "hasOwnProperty";
    "isPrototypeOf"; "propertyIsEnumerable"; "__proto__"; "__defineGetter__";
    "__defineSetter__"; "__lookupGetter__"; "__lookupSetter__" ].

(** A key under which an object literal that has no such own property
    answers with an inherited member. *)
Definition inherited (key : string) : bool :=
  existsb (String.eqb key) objectPrototypeKeys.

(** No present channel carries a label that names an inherited member. *)
Definition ownLabels (input : MultiModalEmotionInput) : Prop :=
  forall c l, channelLabel input c = Some l -> inherited l = false.

(* ================================================================== *)
(** ** Worked examples of the specification *)

Example normalize_ex1 : normalizeEmotion "  hApPy " = "Happy".
Proof. reflexivity. Qed.

Example normalize_ex2 : normalizeEmotion "very calm" = "Neutral".
Proof. reflexivity. Qed.

Example extract_ex1 :
  extractEmotionFromText "I feel neutral today" = Some "Neutral".
Proof. reflexivity. Qed.

Example extract_ex2 : extractEmotionFromText "what a joy" = Some "Happy".
Proof. reflexivity. Qed.

Example weighted_ex1 :
  weightedVotingFusion (mkInput (Some (mkEmotionScore "Happy" 0.85)) None None)
  = Fused.mk "Happy" 0.5 (Breakdown.mk (Some "Happy") None None) "weighted-voting".
Proof. reflexivity. Qed.

Example weighted_ex2 :
  weightedVotingFusion
    (mkInput (Some (mkEmotionScore "Happy" 0.85)) (Some "Excited")
             (Some "I feel neutral today"))
  = Fused.mk "Happy" 0.5
      (Breakdown.mk (Some "Happy") (Some "Excited") (Some "Neutral"))
      "weighted-voting".
Proof. reflexivity. Qed.

Example majority_ex1 :
  majorityVotingFusion
    (mkInput (Some (mkEmotionScore "Sad" 0.9)) (Some "sad and tired") (Some "Happy"))
  = Fused.mk "Sad" (2 / 3)
      (Breakdown.mk (Some "Sad") (Some "Sad") (Some "Happy")) "majority-voting".
Proof. reflexivity. Qed.

(* ================================================================== *)
(** ** Strings: case, trimming and substrings *)

Section StringFacts.

Lemma is_ws_lower_char (c : ascii) : is_ws (lower_char c) = is_ws c.
Proof.
  destruct c as [[] [] [] [] [] [] [] []]; reflexivity.
Qed.

Lemma toLowerCase_trimStart (s : string) :
  toLowerCase (trimStart s) = trimStart (toLowerCase s).
Proof.
  induction s as [|c r IH]; simpl; [reflexivity|].
  rewrite is_ws_lower_char.
  destruct (is_ws c); [exact IH | reflexivity].
Qed.

Lemma toLowerCase_trimEnd (s : string) :
  toLowerCase (trimEnd s) = trimEnd (toLowerCase s).
Proof.
  induction s as [|c r IH]; simpl; [reflexivity|].
  rewrite <- IH, is_ws_lower_char.
  destruct (trimEnd r) as [|c' t]; simpl.
  - destruct (is_ws c); reflexivity.
  - reflexivity.
Qed.

Lemma toLowerCase_trim (s : string) :
  toLowerCase (trim s) = trim (toLowerCase s).
Proof.
  unfold trim. now rewrite toLowerCase_trimEnd, toLowerCase_trimStart.
Qed.

Lemma includes_trimStart (p s : string) :
  solid p = true -> includes p (trimStart s) = includes p s.
Proof.
  intro Hp. induction s as [|c r IH]; [reflexivity|].
  cbn [trimStart]. destruct (is_ws c) eqn:Hc; [|reflexivity].
  rewrite IH. cbn [includes].
  destruct p as [|a p']; [discriminate Hp|].
  cbn [startsWith]. cbn [solid] in Hp.
  apply andb_prop in Hp. destruct Hp as [Ha _].
  destruct (Ascii.eqb_spec a c) as [->|_]; [|reflexivity].
  rewrite Hc in Ha. discriminate Ha.
Qed.

Lemma startsWith_cons (a c : ascii) (p s : string) :
  startsWith (String a p) (String c s) = Ascii.eqb a c && startsWith p s.
Proof. reflexivity. Qed.

Lemma startsWith_trimEnd (p s : string) :
  ends_solid p = true -> startsWith p (trimEnd s) = startsWith p s.
Proof.
  revert p. induction s as [|c r IH]; intros p Hp; [reflexivity|].
  destruct p as [|a p']; [discriminate Hp|].
  cbn [trimEnd]. rewrite (startsWith_cons a c p' r).
  destruct p' as [|b p''].
  - cbn [ends_solid] in Hp.
    destruct (trimEnd r) as [|c' t].
    + destruct (is_ws c) eqn:Hc; cbn.
      * destruct (Ascii.eqb_spec a c) as [->|_]; [|reflexivity].
        rewrite Hc in Hp. discriminate Hp.
      * destruct (Ascii.eqb a c); reflexivity.
    + cbn. destruct (Ascii.eqb a c); reflexivity.
  - assert (Hp' : ends_solid (String b p'') = true) by exact Hp.
    rewrite <- (IH _ Hp').
    destruct (trimEnd r) as [|c' t].
    + destruct (is_ws c); cbn; now rewrite ?andb_false_r.
    + now rewrite startsWith_cons.
Qed.

Lemma includes_empty_solid (p : string) :
  ends_solid p = true -> includes p "" = false.
Proof.
  destruct p; [discriminate|reflexivity].
Qed.

Lemma includes_trimEnd (p s : string) :
  ends_solid p = true -> includes p (trimEnd s) = includes p s.
Proof.
  intro Hp. induction s as [|c r IH]; [reflexivity|].
  cbn [includes]. rewrite <- (startsWith_trimEnd p (String c r) Hp), <- IH.
  cbn [trimEnd].
  destruct (trimEnd r) as [|c' t].
  - destruct (is_ws c); cbn [includes];
      rewrite ?(includes_empty_solid p Hp), ?orb_false_r; try reflexivity.
    destruct p; [discriminate Hp | reflexivity].
  - reflexivity.
Qed.

Lemma includes_trim (p s : string) :
  solid p = true -> includes p (trim s) = includes p s.
Proof.
  intro Hp. unfold trim.
  assert (He : ends_solid p = true).
  { destruct p; [discriminate Hp|]. cbn [solid] in Hp.
    apply andb_prop in Hp. exact (proj2 Hp). }
  now rewrite includes_trimEnd, includes_trimStart.
Qed.

End StringFacts.

(* ================================================================== *)
(** ** Lists: first match *)

Section FirstMatch.

Context {A : Type} (f : A -> bool).

Lemma find_all_false (l : list A) :
  (forall x, In x l -> f x = false) -> find f l = None.
Proof.
  induction l as [|a l IH]; intro H; [reflexivity|].
  simpl. rewrite (H a (or_introl eq_refl)).
  apply IH. intros x Hx. apply H. now right.
Qed.

Lemma find_first (pre post : list A) (m : A) :
  f m = true -> (forall x, In x pre -> f x = false) ->
  find f (pre ++ m :: post) = Some m.
Proof.
  intros Hm. induction pre as [|a pre IH]; intro H; simpl.
  - now rewrite Hm.
  - rewrite (H a (or_introl eq_refl)). apply IH.
    intros x Hx. apply H. now right.
Qed.

End FirstMatch.

(* ================================================================== *)
(** ** The normaliser *)

Ltac in_list := simpl; tauto.

Ltac each_member H :=
  simpl in H;
  repeat (destruct H as [H|H]; [subst|]); try contradiction.

(** C3. An input whose trimmed value is no taxonomy member (compared without
    case), and whose trimmed value contains "calm" (without case) and none of
    the keywords that come before it, normalises to "Neutral"; for an input of
    ASCII characters the keywords may as well be looked for in the input
    itself, trimming neither adds nor removes an occurrence; and an input whose
    trimmed value is "Calm" up to case normalises to the taxonomy member
    "Calm". *)
Theorem normalize_calm_keyword_vs_exact :
  (forall s,
      (forall m, In m STANDARD_EMOTIONS ->
                 toLowerCase (trim s) <> toLowerCase m) ->
      includes "calm" (toLowerCase (trim s)) = true ->
      (forall kw, In kw keywordsBeforeCalm ->
                  includes kw (toLowerCase (trim s)) = false) ->
      normalizeEmotion s = "Neutral")
  /\ (forall s,
         asciiOnly s = true ->
         (forall m, In m STANDARD_EMOTIONS ->
                    toLowerCase (trim s) <> toLowerCase m) ->
         includes "calm" (toLowerCase s) = true ->
         (forall kw, In kw keywordsBeforeCalm ->
                     includes kw (toLowerCase s) = false) ->
         normalizeEmotion s = "Neutral")
  /\ (forall s,
         toLowerCase (trim s) = toLowerCase "Calm" ->
         normalizeEmotion s = "Calm").
Proof.
  split; [|split].
  - intros s Hmember Hcalm Hbefore. unfold normalizeEmotion.
    rewrite find_all_false.
    + cbv zeta. rewrite Hcalm, !Hbefore by in_list.
      simpl. now rewrite orb_true_r.
    + intros m Hm. apply String.eqb_neq. intro E.
      exact (Hmember m Hm (eq_sym E)).
  - intros s _ Hmember Hcalm Hbefore. unfold normalizeEmotion.
    rewrite find_all_false.
    + rewrite toLowerCase_trim, !includes_trim by reflexivity.
      rewrite Hcalm, !Hbefore by in_list.
      simpl. now rewrite orb_true_r.
    + intros m Hm. apply String.eqb_neq. intro E.
      exact (Hmember m Hm (eq_sym E)).
  - intros s H. unfold normalizeEmotion. rewrite H. reflexivity.
Qed.

Lemma normalize_calm_keyword_vs_exact_witness :
  normalizeEmotion " Very CALM " = "Neutral"
  /\ normalizeEmotion "so calm  " = "Neutral"
  /\ normalizeEmotion "  cAlM" = "Calm".
Proof.
  split; [|split].
  - apply (proj1 normalize_calm_keyword_vs_exact).
    + intros m Hm. each_member Hm; discriminate.
    + reflexivity.
    + intros kw Hkw. unfold keywordsBeforeCalm in Hkw.
      each_member Hkw; reflexivity.
  - apply (proj1 (proj2 normalize_calm_keyword_vs_exact)).
    + reflexivity.
    + intros m Hm. each_member Hm; discriminate.
    + reflexivity.
    + intros kw Hkw. unfold keywordsBeforeCalm in Hkw.
      each_member Hkw; reflexivity.
  - apply (proj2 (proj2 normalize_calm_keyword_vs_exact)). reflexivity.
Defined.

(* ================================================================== *)
(** ** The extractor *)

Lemma extractor_chain_is_table (text : string) :
  find (fun name => occursIn name text) STANDARD_EMOTIONS = None ->
  extractEmotionFromText text
  = option_map snd (find (ruleMatches text) extractorKeywords).
Proof.
  intro Hnone. unfold extractEmotionFromText, occursIn in *.
  destruct text as [|c r]; [reflexivity|].
  cbn [truthy_string String.eqb negb]. cbv zeta. rewrite Hnone.
  unfold extractorKeywords, ruleMatches.
  cbn [find fst snd existsb option_map].
  repeat match goal with
         | |- context [includes ?k ?t] => destruct (includes k t); cbn [orb]
         end; reflexivity.
Qed.

(** C5. The extractor returns the first taxonomy member, in taxonomy order,
    whose name occurs in the text without regard to case; failing that, the
    label of the first rule of its keyword table one of whose keywords occurs;
    failing that, nothing. *)
Theorem extract_first_name_then_first_keyword (text : string) :
  (forall pre name post,
      STANDARD_EMOTIONS = pre ++ name :: post ->
      occursIn name text = true ->
      (forall other, In other pre -> occursIn other text = false) ->
      extractEmotionFromText text = Some name)
  /\ (forall pre rule post,
         (forall name, In name STANDARD_EMOTIONS -> occursIn name text = false) ->
         extractorKeywords = pre ++ rule :: post ->
         ruleMatches text rule = true ->
         (forall other, In other pre -> ruleMatches text other = false) ->
         extractEmotionFromText text = Some (snd rule))
  /\ ((forall name, In name STANDARD_EMOTIONS -> occursIn name text = false) ->
      (forall rule, In rule extractorKeywords -> ruleMatches text rule = false) ->
      extractEmotionFromText text = None).
Proof.
  split; [|split].
  - intros pre name post Hsplit Hocc Hpre.
    unfold extractEmotionFromText.
    destruct text as [|c r].
    + exfalso. assert (Hin : In name STANDARD_EMOTIONS).
      { rewrite Hsplit. apply in_or_app. right. now left. }
      unfold STANDARD_EMOTIONS in Hin. each_member Hin; discriminate Hocc.
    + cbn [truthy_string String.eqb negb]. cbv zeta.
      change (fun emotion => includes (toLowerCase emotion) (toLowerCase (String c r)))
        with (fun emotion => occursIn emotion (String c r)).
      rewrite Hsplit, (find_first _ pre post name Hocc Hpre). reflexivity.
  - intros pre rule post Hnames Hsplit Hrule Hpre.
    rewrite extractor_chain_is_table by (apply find_all_false; exact Hnames).
    rewrite Hsplit, (find_first _ pre post rule Hrule Hpre). reflexivity.
  - intros Hnames Hrules.
    rewrite extractor_chain_is_table by (apply find_all_false; exact Hnames).
    rewrite (find_all_false _ _ Hrules). reflexivity.
Qed.

Lemma extract_first_name_then_first_keyword_witness :
  extractEmotionFromText "Angry, then SAD" = Some "Sad"
  /\ extractEmotionFromText "a bit Worried" = Some "Anxious"
  /\ extractEmotionFromText "bored" = None.
Proof.
  split; [|split].
  - apply (proj1 (extract_first_name_then_first_keyword "Angry, then SAD")
             ["Happy"] "Sad"
             ["Angry"; "Fearful"; "Surprised"; "Disgusted"; "Neutral";
              "Anxious"; "Excited"; "Calm"; "Frustrated"; "Confused"]).
    + reflexivity.
    + reflexivity.
    + intros other H. each_member H; reflexivity.
  - apply (proj1 (proj2 (extract_first_name_then_first_keyword "a bit Worried"))
             (firstn 7 extractorKeywords) (["anxious"; "worried"], "Anxious")
             (skipn 8 extractorKeywords)).
    + intros name H. unfold STANDARD_EMOTIONS in H. each_member H; reflexivity.
    + reflexivity.
    + reflexivity.
    + intros other H. cbn in H. each_member H; reflexivity.
  - apply (proj2 (proj2 (extract_first_name_then_first_keyword "bored"))).
    + intros name H. unfold STANDARD_EMOTIONS in H. each_member H; reflexivity.
    + intros rule H. unfold extractorKeywords in H. each_member H; reflexivity.
Defined.

(* ================================================================== *)
(** ** The face-api label map *)

(** C10. The seven lowercase face-api labels map to their taxonomy members, and
    every other string that does not name a member inherited from
    [Object.prototype] is returned as it is.  (Under an inherited name the
    lookup in the table finds the inherited member, and the function returns
    that member instead of the string.) *)
Theorem mapFaceApiEmotion_table_or_identity :
  map mapFaceApiEmotion faceApiLabels
  = [ "Neutral"; "Happy"; "Sad"; "Angry"; "Fearful"; "Disgusted"; "Surprised" ]
  /\ (forall s, ~ In s faceApiLabels -> inherited s = false ->
                mapFaceApiEmotion s = s).
Proof.
  split; [reflexivity|].
  intros s Hs _. unfold mapFaceApiEmotion, emotionMap. cbn [Dict.get].
  repeat match goal with
         | |- context [String.eqb ?k s] =>
             destruct (String.eqb_spec k s) as [E|_];
             [exfalso; apply Hs; rewrite <- E; in_list|]
         end.
  reflexivity.
Qed.

Lemma mapFaceApiEmotion_table_or_identity_witness :
  mapFaceApiEmotion "Happy" = "Happy"
  /\ mapFaceApiEmotion "calm" = "calm"
  /\ mapFaceApiEmotion " happy" = " happy".
Proof.
  split; [|split]; apply (proj2 mapFaceApiEmotion_table_or_identity);
    try reflexivity;
    intro H; unfold faceApiLabels in H; each_member H; discriminate.
Defined.

(* ================================================================== *)
(** ** The sampling loop *)

Lemma collectDetections_nothing (classifier : nat -> option EmotionScore) :
  forall remaining i,
    (forall j, i <= j < i + remaining -> classifier j = None) ->
    collectDetections classifier i remaining = [].
Proof.
  induction remaining as [|n IH]; intros i H; [reflexivity|].
  simpl. rewrite (H i) by lia. apply IH. intros j Hj. apply H. lia.
Qed.

Lemma collectDetections_sampled (classifier : nat -> option EmotionScore) :
  forall remaining i d,
    In d (collectDetections classifier i remaining) ->
    exists j, i <= j < i + remaining /\ classifier j = Some d.
Proof.
  induction remaining as [|n IH]; intros i d H; [contradiction|].
  simpl in H. destruct (classifier i) as [d0|] eqn:E.
  - destruct H as [<-|H].
    + exists i. split; [lia | exact E].
    + destruct (IH _ _ H) as (j & Hj & Hc). exists j. split; [lia | exact Hc].
  - destruct (IH _ _ H) as (j & Hj & Hc). exists j. split; [lia | exact Hc].
Qed.

(** C8. When none of the [numFrames] invocations of the classifier detects a
    face, the aggregator returns nothing. *)
Theorem no_detection_gives_absent
  (classifier : nat -> option EmotionScore) (numFrames : nat) :
  (forall i, i < numFrames -> classifier i = None) ->
  detectFacialExpressionMultiFrame classifier numFrames = None.
Proof.
  intro H. unfold detectFacialExpressionMultiFrame.
  rewrite collectDetections_nothing; [reflexivity|].
  intros j Hj. apply H. lia.
Qed.

Lemma no_detection_gives_absent_witness :
  detectFacialExpressionMultiFrame (fun _ => None) 5 = None.
Proof.
  apply (no_detection_gives_absent (fun _ => None) 5). reflexivity.
Defined.

(* ================================================================== *)
(** ** Dictionaries and sorting: membership *)

Section DictFacts.

Context {T : Type}.

Lemma insert_by_index_In (i : N) (e x : string * T) l :
  In x (map snd (Dict.insert_by_index i e l)) <-> x = e \/ In x (map snd l).
Proof.
  induction l as [|[j e'] l IH]; simpl.
  - intuition.
  - destruct (i <? j)%N; simpl; [intuition|]. rewrite IH. intuition.
Qed.

Lemma insert_by_index_length (i : N) (e : string * T) l :
  length (Dict.insert_by_index i e l) = S (length l).
Proof.
  induction l as [|[j e'] l IH]; simpl; [reflexivity|].
  destruct (i <? j)%N; simpl; [reflexivity|]. now rewrite IH.
Qed.

Lemma entries_In (d : Dict.t T) (x : string * T) :
  In x (Dict.entries d) <-> In x d.
Proof.
  unfold Dict.entries. rewrite in_app_iff.
  induction d as [|e d IH]; simpl; [tauto|].
  unfold Dict.is_array_index in *.
  destruct (Dict.array_index (fst e)) as [i|]; simpl.
  - rewrite insert_by_index_In. intuition.
  - intuition.
Qed.

Lemma entries_length (d : Dict.t T) :
  length (Dict.entries d) = length d.
Proof.
  unfold Dict.entries. rewrite length_app, length_map.
  induction d as [|e d IH]; simpl; [reflexivity|].
  unfold Dict.is_array_index in *.
  destruct (Dict.array_index (fst e)) as [i|]; simpl.
  - rewrite insert_by_index_length. lia.
  - lia.
Qed.

Lemma entries_without_index (d : Dict.t T) :
  Forall (fun e => Dict.array_index (fst e) = None) d ->
  Dict.entries d = d.
Proof.
  intro H. unfold Dict.entries.
  assert (Hi : Dict.index_entries d = []).
  { induction H as [|e d He Hd IH]; [reflexivity|].
    cbn [Dict.index_entries]. now rewrite He. }
  rewrite Hi. cbn [map app].
  induction H as [|e d He Hd IH]; [reflexivity|].
  cbn [filter]. unfold Dict.is_array_index at 1. rewrite He. cbn [negb].
  f_equal. apply IH. cbn [Dict.index_entries] in Hi. now rewrite He in Hi.
Qed.

Lemma entries_singleton (k : string) (v : T) :
  Dict.entries [(k, v)] = [(k, v)].
Proof.
  unfold Dict.entries, Dict.is_array_index. simpl.
  destruct (Dict.array_index k); reflexivity.
Qed.

Lemma sort_insert_In (cmp : (string * T) -> (string * T) -> float) x y l :
  In y (JsArray.sort_insert cmp x l) <-> y = x \/ In y l.
Proof.
  induction l as [|z l IH]; simpl.
  - intuition.
  - destruct (gt (cmp x z) 0); simpl; [rewrite IH|]; intuition.
Qed.

Lemma sort_In (cmp : (string * T) -> (string * T) -> float) l y :
  In y (JsArray.sort cmp l) <-> In y l.
Proof.
  unfold JsArray.sort. induction l as [|x l IH]; simpl; [tauto|].
  rewrite sort_insert_In, IH. intuition.
Qed.

Lemma sort_nonempty (cmp : (string * T) -> (string * T) -> float) l :
  JsArray.sort cmp l = [] -> l = [].
Proof.
  destruct l as [|x l]; [reflexivity|]. intro H. exfalso.
  assert (Hin : In x (JsArray.sort cmp (x :: l))) by (apply sort_In; now left).
  rewrite H in Hin. exact Hin.
Qed.

End DictFacts.

Lemma set_nonempty {T : Type} (d : Dict.t T) (k : string) (v : T) :
  Dict.set d k v <> [].
Proof.
  destruct d as [|[k' v'] d]; simpl; [discriminate|].
  destruct (String.eqb k' k); discriminate.
Qed.

Lemma set_In_key {T : Type} (d : Dict.t T) (k : string) (v : T) (x : string * T) :
  In x (Dict.set d k v) -> fst x = k \/ In x d.
Proof.
  induction d as [|[k' v'] d IH]; simpl.
  - intros [<-|[]]. now left.
  - destruct (String.eqb_spec k' k) as [->|_]; simpl.
    + intros [<-|H]; [now left | now right; right].
    + intros [<-|H]; [now right; left|]. destruct (IH H); [now left | now right; right].
Qed.

(* ================================================================== *)
(** ** The fusion engine *)

Lemma addVote_nonempty (d : Dict.t float) (k : string) (w : float) :
  addVote d k w <> [].
Proof. apply set_nonempty. Qed.

Lemma sorted_head (d : Dict.t float) :
  d <> [] ->
  exists k s rest,
    JsArray.sort byVotesDescending (Dict.entries d) = (k, s) :: rest
    /\ In (k, s) d.
Proof.
  intro Hd.
  destruct (JsArray.sort byVotesDescending (Dict.entries d))
    as [|[k s] rest] eqn:E.
  - apply sort_nonempty in E. destruct d as [|p d]; [congruence|].
    assert (L := entries_length (p :: d)). rewrite E in L. discriminate L.
  - exists k, s, rest. split; [reflexivity|].
    apply entries_In, (sort_In byVotesDescending). rewrite E. now left.
Qed.

(** The presence of each channel, the facial weight tier, and the normalised
    labels as opaque names. *)
Ltac fusion_cases input :=
  destruct input as [in_f in_v in_t];
  unfold fuseEmotions, weightedVotingFusion, majorityVotingFusion,
    weightedVotes, majorityVotes, contributions, channelLabel, channelWeight,
    facialWeight, gt in *;
  cbn [facialEmotion voiceEmotion textEmotion] in *;
  destruct in_f as [[raw_f conf_f]|];
  destruct (present_string in_v) as [raw_v|];
  destruct (present_string in_t) as [raw_t|];
  cbn [emotion confidence option_map flat_map app] in *;
  try generalize dependent (normalizeEmotion raw_f);
  try generalize dependent (normalizeEmotion (extracted_or_raw raw_v));
  try generalize dependent (normalizeEmotion (extracted_or_raw raw_t));
  intros;
  try match goal with
      | |- context [(0.6 <? ?c)%float] => destruct (0.6 <? c)%float
      | H : context [(0.6 <? ?c)%float] |- _ => destruct (0.6 <? c)%float
      end.

Ltac label_step :=
  rewrite ?String.eqb_refl in *;
  cbn -[Dict.entries JsArray.sort String.eqb] in *.

(** Which of the labels coincide. *)
Ltac label_cases :=
  label_step;
  repeat (match goal with
          | |- context [String.eqb ?a ?b] =>
              destruct (String.eqb_spec a b); [subst|]
          | H : context [String.eqb ?a ?b] |- _ =>
              destruct (String.eqb_spec a b); [subst|]
          end; label_step).

Ltac votes_unfold :=
  unfold addVote, votes_or_zero, Dict.empty, Dict.values, accumulated in *;
  cbn -[Dict.entries JsArray.sort String.eqb] in *.

(** The head of the sorted entries is an entry of the accumulator. *)
Ltac take_head :=
  match goal with
  | |- context [JsArray.sort byVotesDescending (Dict.entries ?d)] =>
      let k := fresh "k" in
      let s := fresh "s" in
      let rest := fresh "rest" in
      let E := fresh "E" in
      let Hin := fresh "Hin" in
      destruct (sorted_head d) as (k & s & rest & E & Hin);
      [apply addVote_nonempty | rewrite E]
  end.

Ltac each_entry H :=
  repeat (destruct H as [H|H]; [inversion H; subst; clear H|]);
  try contradiction.

(** Which labels are array indices, and how their indices compare. *)
Ltac index_cases :=
  repeat match goal with
         | |- context [Dict.array_index ?k] =>
             let E := fresh "Ei" in destruct (Dict.array_index k) eqn:E
         end;
  cbn -[String.eqb];
  repeat (match goal with
          | |- context [(?i <? ?j)%N] => destruct (i <? j)%N
          end; cbn -[String.eqb]).

Ltac members H :=
  cbn in H; repeat (destruct H as [H|H]; [subst|]); try contradiction.

Ltac first_max_at pre :=
  exists pre; do 2 eexists; split; [reflexivity|];
  split; intros x Hx; members Hx; reflexivity.

Ltac first_max :=
  first [ first_max_at (@nil (string * float))
        | eexists [_]; do 2 eexists; split; [reflexivity|];
          split; intros x Hx; members Hx; reflexivity
        | eexists [_; _]; do 2 eexists; split; [reflexivity|];
          split; intros x Hx; members Hx; reflexivity ].

(** C7. With no channel present (each field null, undefined or, for voice and
    text, the empty string), both strategies return "Neutral" with confidence
    0.5, an empty breakdown and their own method name. *)
Theorem all_absent_fallback (input : MultiModalEmotionInput) :
  (forall c, channelRaw input c = None) ->
  fuseEmotions input weighted
  = Fused.mk "Neutral" 0.5 (Breakdown.mk None None None) "weighted-voting"
  /\ fuseEmotions input majority
     = Fused.mk "Neutral" 0.5 (Breakdown.mk None None None) "majority-voting".
Proof.
  intro H.
  assert (Hf := H Facial). assert (Hv := H Voice). assert (Ht := H Text).
  destruct input as [f v t]. cbn in Hf, Hv, Ht.
  unfold fuseEmotions, weightedVotingFusion, majorityVotingFusion,
    weightedVotes, majorityVotes.
  cbn [facialEmotion voiceEmotion textEmotion].
  destruct f; [discriminate Hf|]. rewrite Hv, Ht. split; reflexivity.
Qed.

Lemma all_absent_fallback_witness :
  fuseEmotions (mkInput None None None) weighted
  = Fused.mk "Neutral" 0.5 (Breakdown.mk None None None) "weighted-voting"
  /\ fuseEmotions (mkInput None None None) majority
     = Fused.mk "Neutral" 0.5 (Breakdown.mk None None None) "majority-voting".
Proof.
  apply (all_absent_fallback (mkInput None None None)).
  intros [| |]; reflexivity.
Defined.

(** C9. When exactly one channel is present and its normalised label does not
    name a member inherited from [Object.prototype], both strategies return
    that label as the final emotion, the breakdown holds that channel's key
    and no other, and the majority confidence is exactly 1.  (Under an
    inherited name the accumulator of either strategy reads the inherited
    member where it expects no vote yet.) *)
Theorem sole_channel_decides
  (input : MultiModalEmotionInput) (c : Channel) (l : string) :
  channelLabel input c = Some l ->
  inherited l = false ->
  (forall c', c' <> c -> channelLabel input c' = None) ->
  (forall strategy,
      Fused.finalEmotion (fuseEmotions input strategy) = l
      /\ forall c',
          breakdownKey (Fused.breakdown (fuseEmotions input strategy)) c'
          = if match c, c' with
               | Facial, Facial | Voice, Voice | Text, Text => true
               | _, _ => false
               end
            then Some l else None)
  /\ Fused.confidence (fuseEmotions input majority) = 1%float.
Proof.
  intros Hc _ Hothers.
  assert (Hf := fun H => Hothers Facial H).
  assert (Hv := fun H => Hothers Voice H).
  assert (Ht := fun H => Hothers Text H).
  clear Hothers.
  fusion_cases input.
  all: destruct c; try discriminate Hc;
    try (discriminate Hf; discriminate);
    try (discriminate Hv; discriminate);
    try (discriminate Ht; discriminate).
  all: injection Hc as ->.
  all: votes_unfold; rewrite ?entries_singleton; cbn.
  all: split; [intros [|]; (split; [reflexivity | intros [| |]; reflexivity])
              | reflexivity].
Qed.

Lemma sole_channel_decides_witness :
  (forall strategy,
      Fused.finalEmotion
        (fuseEmotions (mkInput None (Some "so worried") (Some "")) strategy)
      = "Anxious")
  /\ Fused.confidence
       (fuseEmotions (mkInput None (Some "so worried") (Some "")) majority)
     = 1%float.
Proof.
  destruct (sole_channel_decides
              (mkInput None (Some "so worried") (Some "")) Voice "Anxious")
    as [H1 H2].
  - reflexivity.
  - reflexivity.
  - intros [| |] H; try reflexivity. now elim H.
  - split; [intro strategy; exact (proj1 (H1 strategy)) | exact H2].
Defined.

(** The labels of a given input are not inherited names. *)
Ltac own_labels :=
  let H := fresh "H" in
  intros [| |] ? H; vm_compute in H; try discriminate H;
  injection H as <-; reflexivity.

Lemma weighted_winner_has_highest_weight
  (input : MultiModalEmotionInput) (l : string) :
  contributions input <> [] ->
  (accumulated l (contributions input)
   <=? accumulated (Fused.finalEmotion (weightedVotingFusion input))
                   (contributions input))%float = true.
Proof.
  intro Hpresent.
  fusion_cases input; try congruence; clear Hpresent.
  all: match goal with
       | |- context [Fused.finalEmotion ?r] =>
           remember (Fused.finalEmotion r) as final eqn:Hfinal; revert Hfinal
       end.
  all: votes_unfold; label_cases.
  all: unfold Dict.entries, Dict.is_array_index;
    cbn -[String.eqb Dict.array_index].
  all: index_cases.
  all: intro Hfinal; try subst; rewrite ?String.eqb_refl; cbn -[String.eqb].
  all: repeat match goal with
         | H : ?a <> ?b |- context [String.eqb ?a ?b] =>
             rewrite (proj2 (String.eqb_neq a b) H); cbn -[String.eqb]
         | H : ?a <> ?b |- context [String.eqb ?b ?a] =>
             rewrite (proj2 (String.eqb_neq b a) (not_eq_sym H));
             cbn -[String.eqb]
         end.
  all: try reflexivity.
  all: try congruence.
Qed.

(** C2. Under the weighted strategy a facial channel weighs 0.5 when its
    confidence exceeds 0.6 and 0.3 otherwise (0.3 at exactly 0.6), voice
    weighs 0.3 and text 0.2.  When no present label names a member inherited
    from [Object.prototype], the accumulator holds for every label the weights
    of the present channels that carry it, and with a channel present the
    winning label has the highest accumulated weight and the confidence of the
    result is that weight clamped to 1.  (Under an inherited name the
    accumulator reads the inherited member where it expects no vote yet.) *)
Theorem weighted_weights_and_confidence (input : MultiModalEmotionInput) :
  let votes := fst (weightedVotes input) in
  let result := weightedVotingFusion input in
  (forall fe, facialWeight fe
              = if (0.6 <? confidence fe)%float then 0.5%float else 0.3%float)
  /\ (forall e, facialWeight (mkEmotionScore e 0.6) = 0.3%float)
  /\ (ownLabels input ->
      (forall l, votes_or_zero votes l = accumulated l (contributions input))
      /\ (contributions input <> [] ->
          (forall l,
              (accumulated l (contributions input)
               <=? accumulated (Fused.finalEmotion result)
                               (contributions input))%float = true)
          /\ Fused.confidence result
             = clampToOne (accumulated (Fused.finalEmotion result)
                                       (contributions input)))).
Proof.
  intros votes result; subst votes result.
  split; [reflexivity|]. split; [reflexivity|].
  intros _. split.
  - intros l0. fusion_cases input; votes_unfold; label_cases;
      reflexivity || congruence.
  - intro Hpresent. split.
    + intro l0. now apply weighted_winner_has_highest_weight.
    + fusion_cases input; try congruence; clear Hpresent.
      all: take_head; votes_unfold; label_cases; each_entry Hin.
      all: reflexivity || congruence.
Qed.

Lemma weighted_weights_and_confidence_witness :
  Fused.confidence
    (weightedVotingFusion
       (mkInput (Some (mkEmotionScore "happy" 0.9)) (Some "Joyful") (Some "sad")))
  = 0.8%float.
Proof.
  refine (eq_trans
            (proj2 (proj2 (proj2 (proj2 (weighted_weights_and_confidence
               (mkInput (Some (mkEmotionScore "happy" 0.9)) (Some "Joyful")
                        (Some "sad")))) _) _)) _).
  - own_labels.
  - discriminate.
  - reflexivity.
Defined.

(** C6 (amended). Under the weighted strategy, when no present label names a
    member inherited from [Object.prototype], the winner is the first label of
    highest accumulated weight in the enumeration order of the accumulator.
    Labels enter the accumulator in channel order (facial, voice, text), and
    when none of them is an array index the enumeration order is that
    insertion order, so the label inserted first wins a tie. *)
Theorem weighted_tie_goes_to_first_enumerated (input : MultiModalEmotionInput) :
  let votes := fst (weightedVotes input) in
  ownLabels input ->
  contributions input <> [] ->
  (exists pre score post,
      Dict.entries votes
      = pre ++ (Fused.finalEmotion (weightedVotingFusion input), score) :: post
      /\ (forall x, In x pre -> (snd x <? score)%float = true)
      /\ (forall x, In x post -> (snd x <=? score)%float = true))
  /\ map fst votes = firstSeen (map fst (contributions input))
  /\ (Forall (fun e => Dict.array_index (fst e) = None) votes ->
      Dict.entries votes = votes).
Proof.
  intros votes _ Hpresent; subst votes.
  split; [|split].
  - fusion_cases input; try congruence; clear Hpresent.
    all: votes_unfold; label_cases.
    all: unfold Dict.entries, Dict.is_array_index;
      cbn -[String.eqb Dict.array_index].
    all: index_cases.
    all: first_max.
  - clear Hpresent. fusion_cases input; votes_unfold; label_cases;
      reflexivity || congruence.
  - apply entries_without_index.
Qed.

Lemma weighted_tie_goes_to_first_enumerated_witness :
  Dict.entries
    (fst (weightedVotes
            (mkInput (Some (mkEmotionScore "sad" 0.4)) (Some "happy") None)))
  = [("Sad", 0.3%float); ("Happy", 0.3%float)]
  /\ Fused.finalEmotion
       (weightedVotingFusion
          (mkInput (Some (mkEmotionScore "sad" 0.4)) (Some "happy") None))
     = "Sad".
Proof.
  destruct (weighted_tie_goes_to_first_enumerated
              (mkInput (Some (mkEmotionScore "sad" 0.4)) (Some "happy") None))
    as (_ & _ & Hsame).
  - own_labels.
  - discriminate.
  - split; [|reflexivity].
    rewrite Hsame; [reflexivity|]. repeat constructor.
Defined.

(** C6 (as stated) fails: a facial label "Zzz" and a voice label "7" tie at
    0.3; "Zzz" was inserted first, yet "7", an array index, is enumerated
    first and wins. *)
Lemma weighted_tie_array_index_wins :
  fst (weightedVotes
         (mkInput (Some (mkEmotionScore "zzz" 0.1)) (Some "7") None))
  = [("Zzz", 0.3%float); ("7", 0.3%float)]
  /\ Fused.finalEmotion
       (weightedVotingFusion
          (mkInput (Some (mkEmotionScore "zzz" 0.1)) (Some "7") None))
     = "7".
Proof. split; reflexivity. Qed.

(* ================================================================== *)
(** ** Which labels the fusion engine can emit *)

Lemma normalize_cases (s : string) :
  In (normalizeEmotion s) STANDARD_EMOTIONS
  \/ normalizeEmotion s = capitalizeFirst (trim s).
Proof.
  unfold normalizeEmotion.
  destruct (find _ STANDARD_EMOTIONS) as [m|] eqn:E.
  - left. exact (proj1 (find_some _ _ E)).
  - cbv zeta.
    repeat match goal with
           | |- context [includes ?k ?t] => destruct (includes k t); cbn [orb]
           end;
      first [ right; reflexivity | left; in_list ].
Qed.

Lemma extract_in_taxonomy (s e : string) :
  extractEmotionFromText s = Some e -> In e STANDARD_EMOTIONS.
Proof.
  unfold extractEmotionFromText.
  destruct (negb (truthy_string s)); [discriminate|]. cbv zeta.
  destruct (find _ STANDARD_EMOTIONS) as [m|] eqn:E.
  - intros [= <-]. exact (proj1 (find_some _ _ E)).
  - repeat match goal with
           | |- context [includes ?k ?t] => destruct (includes k t); cbn [orb]
           end;
      intros [= <-] || discriminate; in_list.
Qed.

Lemma normalize_taxonomy_fixed (e : string) :
  In e STANDARD_EMOTIONS -> normalizeEmotion e = e.
Proof.
  intro H. unfold STANDARD_EMOTIONS in H. each_member H; reflexivity.
Qed.

Lemma channelLabel_cases (input : MultiModalEmotionInput) (c : Channel) (l : string) :
  channelLabel input c = Some l ->
  In l STANDARD_EMOTIONS
  \/ exists raw, channelRaw input c = Some raw /\ l = capitalizeFirst (trim raw).
Proof.
  assert (Hchain : forall raw,
             In (normalizeEmotion (extracted_or_raw raw)) STANDARD_EMOTIONS
             \/ normalizeEmotion (extracted_or_raw raw) = capitalizeFirst (trim raw)).
  { intro raw. unfold extracted_or_raw.
    destruct (extractEmotionFromText raw) as [e|] eqn:E; [|apply normalize_cases].
    destruct (truthy_string e); [|apply normalize_cases].
    left. apply extract_in_taxonomy in E.
    now rewrite (normalize_taxonomy_fixed e E). }
  destruct input as [f v t]. destruct c; cbn.
  - destruct f as [fe|]; [|discriminate]. cbn. intros [= <-].
    destruct (normalize_cases (emotion fe)) as [H|H]; [now left|].
    right. exists (emotion fe). now split.
  - destruct (present_string v) as [raw|]; [|discriminate]. cbn. intros [= <-].
    destruct (Hchain raw) as [H|H]; [now left|]. right. exists raw. now split.
  - destruct (present_string t) as [raw|]; [|discriminate]. cbn. intros [= <-].
    destruct (Hchain raw) as [H|H]; [now left|]. right. exists raw. now split.
Qed.

Lemma final_is_neutral_or_label (input : MultiModalEmotionInput) (strategy : Strategy) :
  Fused.finalEmotion (fuseEmotions input strategy) = "Neutral"
  \/ exists c, channelLabel input c
               = Some (Fused.finalEmotion (fuseEmotions input strategy)).
Proof.
  destruct strategy; fusion_cases input.
  all: try (left; reflexivity).
  all: right; take_head; votes_unfold; label_cases; each_entry Hin.
  all: first [ exists Facial; reflexivity
             | exists Voice; reflexivity
             | exists Text; reflexivity ].
Qed.

(* ================================================================== *)
(** ** The temporal aggregator *)

Section FirstSeen.

Lemma firstSeen_In (k : string) (L : list string) :
  In k (firstSeen L) <-> In k L.
Proof.
  induction L as [|l r IH]; simpl; [tauto|].
  rewrite filter_In, IH.
  destruct (String.eqb_spec l k) as [->|Hn]; simpl; intuition congruence.
Qed.

Lemma firstSeen_NoDup (L : list string) : NoDup (firstSeen L).
Proof.
  induction L as [|l r IH]; simpl; constructor.
  - rewrite filter_In, String.eqb_refl. simpl. intros [_ H]. discriminate H.
  - now apply NoDup_filter.
Qed.

Lemma firstSeen_snoc (L : list string) (k : string) :
  firstSeen (L ++ [k])
  = firstSeen L ++ (if existsb (String.eqb k) L then [] else [k]).
Proof.
  induction L as [|l r IH]; simpl; [reflexivity|].
  rewrite IH, filter_app. f_equal. f_equal.
  rewrite (String.eqb_sym k l).
  destruct (existsb (String.eqb k) r); simpl.
  - now rewrite orb_true_r.
  - rewrite orb_false_r. destruct (String.eqb l k); reflexivity.
Qed.

Lemma existsb_eqb_In (k : string) (L : list string) :
  existsb (String.eqb k) L = true <-> In k L.
Proof.
  rewrite existsb_exists. split.
  - intros (x & Hx & E). apply String.eqb_eq in E. now subst.
  - intro H. exists k. split; [exact H | apply String.eqb_refl].
Qed.

End FirstSeen.

Section KeyedLists.

Context {T : Type}.

Lemma get_keyed (f : string -> T) (Ks : list string) (k : string) :
  Dict.get (map (fun l => (l, f l)) Ks) k
  = if existsb (String.eqb k) Ks then Some (f k) else None.
Proof.
  induction Ks as [|l r IH]; simpl; [reflexivity|].
  rewrite (String.eqb_sym k l).
  destruct (String.eqb_spec l k) as [->|_]; simpl; [reflexivity | exact IH].
Qed.

Lemma get_None_keys (d : Dict.t T) (k : string) :
  Dict.get d k = None <-> ~ In k (map fst d).
Proof.
  induction d as [|[k' v] d IH]; simpl; [tauto|].
  destruct (String.eqb_spec k' k) as [->|Hn].
  - split; [discriminate | intro H; elim H; now left].
  - rewrite IH. tauto.
Qed.

Lemma set_fresh (d : Dict.t T) (k : string) (v : T) :
  Dict.get d k = None -> Dict.set d k v = d ++ [(k, v)].
Proof.
  induction d as [|[k' v'] d IH]; simpl; [reflexivity|].
  destruct (String.eqb k' k); [discriminate|].
  intro H. now rewrite IH.
Qed.

Lemma get_last (d : Dict.t T) (k : string) (v : T) :
  Dict.get d k = None -> Dict.get (d ++ [(k, v)]) k = Some v.
Proof.
  induction d as [|[k' v'] d IH]; simpl.
  - now rewrite String.eqb_refl.
  - destruct (String.eqb k' k); [discriminate | exact IH].
Qed.

Lemma set_last (d : Dict.t T) (k : string) (v v' : T) :
  Dict.get d k = None -> Dict.set (d ++ [(k, v)]) k v' = d ++ [(k, v')].
Proof.
  induction d as [|[k0 v0] d IH]; simpl.
  - now rewrite String.eqb_refl.
  - destruct (String.eqb k0 k); [discriminate|]. intro H. now rewrite IH.
Qed.

Lemma set_keyed (f : string -> T) (Ks : list string) (k : string) (v : T) :
  NoDup Ks -> In k Ks ->
  Dict.set (map (fun l => (l, f l)) Ks) k v
  = map (fun l => (l, if String.eqb l k then v else f l)) Ks.
Proof.
  induction 1 as [|l r Hl Hr IH]; simpl; [contradiction|].
  destruct (String.eqb_spec l k) as [->|Hn].
  - intros _. f_equal. apply map_ext_in. intros a Ha.
    destruct (String.eqb_spec a k) as [->|_]; [contradiction | reflexivity].
  - intros [E|H]; [contradiction|]. f_equal. now apply IH.
Qed.

End KeyedLists.

Section Grouping.

Lemma confidencesOf_snoc (l : string) (ds : list EmotionScore) (d : EmotionScore) :
  confidencesOf l (ds ++ [d])
  = confidencesOf l ds ++ (if String.eqb (emotion d) l then [confidence d] else []).
Proof.
  unfold confidencesOf. rewrite filter_app, map_app. simpl.
  destruct (String.eqb (emotion d) l); reflexivity.
Qed.

Lemma confidencesOf_unseen (l : string) (ds : list EmotionScore) :
  ~ In l (map emotion ds) -> confidencesOf l ds = [].
Proof.
  unfold confidencesOf. induction ds as [|d ds IH]; simpl; [reflexivity|].
  intro H. destruct (String.eqb_spec (emotion d) l) as [E|_].
  - elim H. now left.
  - apply IH. tauto.
Qed.

Lemma pushConfidence_groups (ds : list EmotionScore) (d : EmotionScore) :
  pushConfidence (groupsOf ds) d = groupsOf (ds ++ [d]).
Proof.
  unfold pushConfidence, groupsOf.
  rewrite map_app. cbn [map]. rewrite firstSeen_snoc.
  rewrite !get_keyed.
  destruct (existsb (String.eqb (emotion d)) (firstSeen (map emotion ds))) eqn:E.
  - assert (Hin : In (emotion d) (firstSeen (map emotion ds)))
      by now apply existsb_eqb_In.
    assert (E' : existsb (String.eqb (emotion d)) (map emotion ds) = true).
    { apply existsb_eqb_In. now apply firstSeen_In. }
    rewrite E', get_keyed, E, app_nil_r.
    rewrite set_keyed by (auto using firstSeen_NoDup).
    apply map_ext. intro l. rewrite confidencesOf_snoc.
    rewrite (String.eqb_sym l).
    destruct (String.eqb_spec (emotion d) l) as [->|_];
      [reflexivity | now rewrite app_nil_r].
  - assert (Hnin : ~ In (emotion d) (map emotion ds)).
    { intro H. apply firstSeen_In, existsb_eqb_In in H. congruence. }
    assert (E' : existsb (String.eqb (emotion d)) (map emotion ds) = false).
    { destruct (existsb _ (map emotion ds)) eqn:X; [|reflexivity].
      apply existsb_eqb_In in X. contradiction. }
    rewrite E'.
    assert (Hget : Dict.get (map (fun l => (l, confidencesOf l ds))
                               (firstSeen (map emotion ds))) (emotion d) = None).
    { now rewrite get_keyed, E. }
    rewrite (set_fresh _ _ _ Hget), (get_last _ _ _ Hget), (set_last _ _ _ _ Hget).
    rewrite map_app. cbn [map]. f_equal.
    + apply map_ext_in. intros l Hl. rewrite confidencesOf_snoc.
      destruct (String.eqb_spec (emotion d) l) as [<-|_];
        [|now rewrite app_nil_r].
      elim Hnin. now apply firstSeen_In.
    + rewrite confidencesOf_snoc, String.eqb_refl.
      now rewrite (confidencesOf_unseen _ _ Hnin).
Qed.

Lemma emotionCounts_groups (ds : list EmotionScore) :
  fold_left pushConfidence ds Dict.empty = groupsOf ds.
Proof.
  induction ds as [|d ds IH] using rev_ind; [reflexivity|].
  now rewrite fold_left_app, IH; cbn [fold_left]; rewrite pushConfidence_groups.
Qed.

End Grouping.

Section Averages.

Context {T U : Type} (g : string * T -> U).

Lemma fold_set_fresh (L : list (string * T)) :
  forall acc : Dict.t U,
    NoDup (map fst L) ->
    (forall k, In k (map fst L) -> ~ In k (map fst acc)) ->
    fold_left (fun a e => Dict.set a (fst e) (g e)) L acc
    = acc ++ map (fun e => (fst e, g e)) L.
Proof.
  induction L as [|e L IH]; intros acc Hnd Hfresh; simpl.
  - now rewrite app_nil_r.
  - inversion Hnd as [|? ? Hnotin Hnd']; subst.
    rewrite set_fresh by (apply get_None_keys, Hfresh; now left).
    rewrite IH; [now rewrite <- app_assoc | exact Hnd' |].
    intros k Hk. rewrite map_app, in_app_iff. simpl.
    intros [H|[<-|[]]]; [|contradiction].
    apply (Hfresh k); [now right | exact H].
Qed.

Lemma fold_set_keys (L : list (string * T)) :
  forall (acc : Dict.t U) (x : string * U),
    In x (fold_left (fun a e => Dict.set a (fst e) (g e)) L acc) ->
    In (fst x) (map fst acc) \/ In (fst x) (map fst L).
Proof.
  induction L as [|e L IH]; intros acc x H; simpl in *.
  - left. now apply in_map.
  - destruct (IH _ _ H) as [H'|H']; [|now right; right].
    apply in_map_iff in H'. destruct H' as (y & <- & Hy).
    destruct (set_In_key _ _ _ _ Hy) as [->|Hy']; [now right; left|].
    left. now apply in_map.
Qed.

Lemma fold_set_nonempty (L : list (string * T)) :
  forall acc : Dict.t U,
    acc <> [] \/ L <> [] ->
    fold_left (fun a e => Dict.set a (fst e) (g e)) L acc <> [].
Proof.
  induction L as [|e L IH]; intros acc H; simpl.
  - destruct H as [H|H]; [exact H | congruence].
  - apply IH. left. apply set_nonempty.
Qed.

End Averages.

Section FloatOrder.

Ltac sf_cases :=
  unfold SFltb, SFleb, SFcompare;
  repeat match goal with
         | x : spec_float |- _ => destruct x
         | b : bool |- _ => destruct b
         end;
  try (intros; simpl in *; congruence);
  change (Pos.compare_cont Eq) with Pos.compare;
  repeat match goal with
         | |- context [Z.compare ?a ?b] =>
             destruct (Z.compare_spec a b); subst
         | |- context [Pos.compare ?a ?b] =>
             destruct (Pos.compare_spec a b); subst
         end;
  simpl; intros; try congruence; try lia.

Lemma SF_lt_not_ge (p c : spec_float) :
  SFltb p c = true -> SFleb c p = false.
Proof. sf_cases. Qed.

Lemma SF_not_ge_trans (p c x : spec_float) :
  SFltb p c = true -> SFleb p x = false -> SFleb c x = false.
Proof. sf_cases. Qed.

Lemma SF_not_gt_trans (p c x : spec_float) :
  SFltb p c = true -> SFltb p x = false -> SFleb c x = false.
Proof. sf_cases. Qed.

Lemma SF_not_ge_not_gt (c x : spec_float) :
  SFleb c x = false -> SFltb c x = false.
Proof. sf_cases. Qed.

Open Scope float_scope.

Lemma float_lt_not_ge (p c : float) :
  (p <? c) = true -> (c <=? p) = false.
Proof. rewrite FloatAxioms.ltb_spec, FloatAxioms.leb_spec. apply SF_lt_not_ge. Qed.

Lemma float_not_ge_trans (p c x : float) :
  (p <? c) = true -> (p <=? x) = false -> (c <=? x) = false.
Proof. rewrite FloatAxioms.ltb_spec, !FloatAxioms.leb_spec. apply SF_not_ge_trans. Qed.

Lemma float_not_gt_trans (p c x : float) :
  (p <? c) = true -> (p <? x) = false -> (c <=? x) = false.
Proof. rewrite !FloatAxioms.ltb_spec, FloatAxioms.leb_spec. apply SF_not_gt_trans. Qed.

Lemma float_not_ge_not_gt (c x : float) :
  (c <=? x) = false -> (c <? x) = false.
Proof. rewrite FloatAxioms.ltb_spec, FloatAxioms.leb_spec. apply SF_not_ge_not_gt. Qed.

End FloatOrder.

Section Dominant.

Open Scope float_scope.

Lemma fold_higher_first_max (rest : list (string * float)) :
  forall (before : list (string * float)) (prev : string * float)
         (between : list (string * float)),
    (forall x, In x before -> (snd prev <=? snd x) = false) ->
    (forall x, In x between -> (snd prev <? snd x) = false) ->
    exists pre post,
      (before ++ prev :: between ++ rest
       = pre ++ fold_left higher rest prev :: post)%list
      /\ (forall x, In x pre -> (snd (fold_left higher rest prev) <=? snd x) = false)
      /\ (forall x, In x post -> (snd (fold_left higher rest prev) <? snd x) = false).
Proof.
  induction rest as [|cur rest IH]; intros before prev between Hb Hm.
  - exists before, between. rewrite app_nil_r. auto.
  - cbn [fold_left]. unfold higher at 2 4 6, gt.
    destruct (snd prev <? snd cur) eqn:E.
    + destruct (IH (before ++ prev :: between)%list cur []) as (pre & post & H1 & H2 & H3).
      * intros x Hx. apply in_app_iff in Hx. destruct Hx as [Hx|[<-|Hx]].
        -- exact (float_not_ge_trans _ _ _ E (Hb x Hx)).
        -- exact (float_lt_not_ge _ _ E).
        -- exact (float_not_gt_trans _ _ _ E (Hm x Hx)).
      * intros x [].
      * exists pre, post. split; [|auto].
        rewrite <- H1, <- app_assoc. reflexivity.
    + destruct (IH before prev (between ++ [cur])%list) as (pre & post & H1 & H2 & H3).
      * exact Hb.
      * intros x Hx. apply in_app_iff in Hx. destruct Hx as [Hx|[<-|[]]].
        -- exact (Hm x Hx).
        -- exact E.
      * exists pre, post. split; [|auto].
        rewrite <- H1, <- app_assoc. reflexivity.
Qed.

Lemma reduce_higher_first_max (l : list (string * float)) :
  l <> [] ->
  exists d pre post,
    JsArray.reduce1 higher l = Some d
    /\ l = (pre ++ d :: post)%list
    /\ (forall x, In x pre -> (snd d <=? snd x) = false)
    /\ (forall x, In x post -> (snd d <? snd x) = false).
Proof.
  destruct l as [|first rest]; [congruence|]. intros _.
  destruct (fold_higher_first_max rest [] first [])
    as (pre & post & H1 & H2 & H3); try (intros x []).
  exists (fold_left higher rest first), pre, post. auto.
Qed.

End Dominant.

Section Aggregate.

Open Scope float_scope.

Lemma groupsOf_nonempty (ds : list EmotionScore) :
  ds <> [] -> groupsOf ds <> [].
Proof.
  destruct ds as [|d ds]; [congruence|]. intros _. discriminate.
Qed.

Lemma groupsOf_keys (ds : list EmotionScore) :
  map fst (groupsOf ds) = firstSeen (map emotion ds).
Proof.
  unfold groupsOf. rewrite map_map. cbn [fst]. apply map_id.
Qed.

Lemma entries_nonempty {T : Type} (d : Dict.t T) :
  d <> [] -> Dict.entries d <> [].
Proof.
  intros H E. apply H. apply length_zero_iff_nil.
  now rewrite <- entries_length, E.
Qed.

Lemma entries_keys_In {T : Type} (d : Dict.t T) (k : string) :
  In k (map fst (Dict.entries d)) <-> In k (map fst d).
Proof.
  rewrite !in_map_iff. split; intros (x & E & H); exists x;
    (split; [exact E | now apply entries_In]).
Qed.

(** The result of the aggregator on a non-empty list of detections. *)
Lemma aggregateDetections_unfold (ds : list EmotionScore) :
  ds <> [] ->
  aggregateDetections ds
  = let avgEmotions :=
      fold_left (fun avg e => Dict.set avg (fst e) (average (snd e)))
                (Dict.entries (groupsOf ds)) Dict.empty in
    match JsArray.reduce1 higher (Dict.entries avgEmotions) with
    | Some dominantEmotion =>
        Some (MultiFrame.mk (fst dominantEmotion) (snd dominantEmotion) avgEmotions)
    | None => None
    end.
Proof.
  destruct ds as [|d ds]; [congruence|]. intros _.
  unfold aggregateDetections. now rewrite emotionCounts_groups.
Qed.



End Aggregate.



(* ================================================================== *)
(** ** Which labels are returned *)

Lemma reduce_higher_In (l : list (string * float)) (d : string * float) :
  JsArray.reduce1 higher l = Some d -> In d l.
Proof.
  destruct l as [|first rest]; [discriminate|]. cbn [JsArray.reduce1].
  intros [= <-].
  assert (H : forall prev, In (fold_left higher rest prev) (prev :: rest)).
  { induction rest as [|cur rest IH]; intro prev; [now left|].
    cbn [fold_left]. destruct (IH (higher prev cur)) as [E|H].
    - rewrite <- E. unfold higher. destruct (gt _ _); [right; now left | now left].
    - right. now right. }
  apply H.
Qed.

Lemma aggregateDetections_label (ds : list EmotionScore) (r : MultiFrame.result) :
  aggregateDetections ds = Some r ->
  exists d, In d ds /\ MultiFrame.emotion r = emotion d.
Proof.
  destruct ds as [|d0 ds0] eqn:Eds; [discriminate|]. rewrite <- Eds.
  rewrite aggregateDetections_unfold by (rewrite Eds; discriminate).
  cbv zeta.
  destruct (JsArray.reduce1 higher _) as [dom|] eqn:E; [|discriminate].
  intros [= <-]. cbn [MultiFrame.emotion].
  apply reduce_higher_In, entries_In, fold_set_keys in E.
  destruct E as [[]|E].
  apply (proj1 (entries_keys_In _ _)) in E. rewrite groupsOf_keys in E.
  apply (proj1 (firstSeen_In _ _)), in_map_iff in E. destruct E as (d & E & Hd).
  exists d. now split.
Qed.

(** C1 (amended). The final emotion of the fusion engine is a taxonomy
    member, or else the capitalised pass-through (the trimmed raw string with
    its first character in upper case) of a present channel; the dominant
    emotion of the aggregator is the raw label of one of the sampled
    detections, as the classifier reported it. *)
Theorem emitted_labels :
  (forall input strategy,
      In (Fused.finalEmotion (fuseEmotions input strategy)) STANDARD_EMOTIONS
      \/ exists c raw,
          channelRaw input c = Some raw
          /\ Fused.finalEmotion (fuseEmotions input strategy)
             = capitalizeFirst (trim raw))
  /\ (forall classifier numFrames r,
         detectFacialExpressionMultiFrame classifier numFrames = Some r ->
         exists i d,
           i < numFrames /\ classifier i = Some d
           /\ MultiFrame.emotion r = emotion d).
Proof.
  split.
  - intros input strategy.
    destruct (final_is_neutral_or_label input strategy) as [->|(c & Hc)].
    + left. in_list.
    + destruct (channelLabel_cases input c _ Hc) as [H|(raw & Hraw & E)];
        [now left|].
      right. exists c, raw. now split.
  - intros classifier numFrames r H.
    unfold detectFacialExpressionMultiFrame in H.
    destruct (aggregateDetections_label _ _ H) as (d & Hd & E).
    destruct (collectDetections_sampled _ _ _ _ Hd) as (i & Hi & Hc).
    exists i, d. repeat split; [lia | exact Hc | exact E].
Qed.

Lemma emitted_labels_witness :
  exists i d,
    i < 3%nat
    /\ (fun i => if Nat.eqb i 1 then Some happy08 else None) i = Some d
    /\ "Happy" = emotion d.
Proof.
  apply (proj2 emitted_labels
           (fun i => if Nat.eqb i 1 then Some happy08 else None) 3%nat
           (MultiFrame.mk "Happy" 0.8 [("Happy", 0.8%float)])).
  reflexivity.
Defined.

(** C1 (as stated) fails: a facial label "bored" is fused to "Bored", and a
    classifier reporting "happy" makes the aggregator return "happy"; neither
    is a taxonomy member. *)
Lemma label_outside_taxonomy :
  ~ In (Fused.finalEmotion
          (fuseEmotions (mkInput (Some (mkEmotionScore "bored" 0.9)) None None)
                        weighted))
       ("Neutral" :: STANDARD_EMOTIONS)
  /\ exists r,
      detectFacialExpressionMultiFrame
        (fun _ => Some (mkEmotionScore "happy" 0.9)) 5 = Some r
      /\ ~ In (MultiFrame.emotion r) ("Neutral" :: STANDARD_EMOTIONS).
Proof.
  split.
  - intro H. cbn in H. each_member H; discriminate.
  - eexists. split; [vm_compute; reflexivity|].
    intro H. cbn in H. each_member H; discriminate.
Qed.

(* ================================================================== *)
(** ** More on the normaliser *)

Section TrimFacts.

Lemma is_ws_upper_char (c : ascii) : is_ws (upper_char c) = is_ws c.
Proof.
  destruct c as [[] [] [] [] [] [] [] []]; reflexivity.
Qed.

Lemma lower_upper_char (c : ascii) : lower_char (upper_char c) = lower_char c.
Proof.
  destruct c as [[] [] [] [] [] [] [] []]; reflexivity.
Qed.

Lemma upper_upper_char (c : ascii) : upper_char (upper_char c) = upper_char c.
Proof.
  destruct c as [[] [] [] [] [] [] [] []]; reflexivity.
Qed.

Lemma trimEnd_idempotent (s : string) : trimEnd (trimEnd s) = trimEnd s.
Proof.
  induction s as [|c r IH]; [reflexivity|].
  cbn [trimEnd]. destruct (trimEnd r) as [|c' t] eqn:E.
  - destruct (is_ws c) eqn:Hc; [reflexivity|]. cbn. now rewrite Hc.
  - cbn [trimEnd]. cbn [trimEnd] in IH.
    destruct (match trimEnd t with
              | "" => if is_ws c' then "" else String c' ""
              | String a s0 => String c' (String a s0)
              end) eqn:E'; [discriminate IH|]. now rewrite IH.
Qed.

(** The shape of a trimmed string: empty, or between two characters that are
    not white space. *)
Lemma trim_shape (s : string) :
  trim s = ""
  \/ exists c r, trim s = String c r /\ is_ws c = false
                 /\ trimEnd (String c r) = String c r.
Proof.
  unfold trim.
  assert (Hstart : trimStart s = ""
                   \/ exists c r, trimStart s = String c r /\ is_ws c = false).
  { induction s as [|c r IH]; [now left|]. cbn [trimStart].
    destruct (is_ws c) eqn:Hc; [exact IH|]. right. now exists c, r. }
  destruct Hstart as [->|(c & r & -> & Hc)]; [now left|].
  right. cbn [trimEnd]. rewrite Hc.
  destruct (trimEnd r) as [|c' t] eqn:E.
  - exists c, "". repeat split; [exact Hc|]. cbn. now rewrite Hc.
  - exists c, (String c' t). repeat split; [exact Hc|].
    rewrite <- E. cbn [trimEnd]. rewrite trimEnd_idempotent, E. reflexivity.
Qed.

Lemma trim_idempotent (s : string) : trim (trim s) = trim s.
Proof.
  destruct (trim_shape s) as [->|(c & r & -> & Hc & He)]; [reflexivity|].
  unfold trim. cbn [trimStart]. now rewrite Hc.
Qed.

Lemma trim_capitalizeFirst (s : string) :
  trim (capitalizeFirst (trim s)) = capitalizeFirst (trim s).
Proof.
  destruct (trim_shape s) as [->|(c & r & -> & Hc & He)]; [reflexivity|].
  cbn [capitalizeFirst]. unfold trim. cbn [trimStart].
  rewrite is_ws_upper_char, Hc. cbn [trimEnd] in *.
  rewrite is_ws_upper_char. rewrite Hc in *.
  destruct (trimEnd r) as [|c' t].
  - injection He as <-. reflexivity.
  - injection He as ->. reflexivity.
Qed.

Lemma toLowerCase_capitalizeFirst (s : string) :
  toLowerCase (capitalizeFirst s) = toLowerCase s.
Proof.
  destruct s as [|c r]; [reflexivity|]. cbn. now rewrite lower_upper_char.
Qed.

Lemma capitalizeFirst_idempotent (s : string) :
  capitalizeFirst (capitalizeFirst s) = capitalizeFirst s.
Proof.
  destruct s as [|c r]; [reflexivity|]. cbn. now rewrite upper_upper_char.
Qed.

End TrimFacts.

(** The normaliser answers with a taxonomy member, or passes the trimmed input
    through because no member and no keyword matched. *)
Lemma normalize_shape (s : string) :
  In (normalizeEmotion s) STANDARD_EMOTIONS
  \/ (normalizeEmotion s = capitalizeFirst (trim s)
      /\ find (fun std => String.eqb (toLowerCase std) (toLowerCase (trim s)))
              STANDARD_EMOTIONS = None
      /\ forall kw, In kw normalizerKeywords ->
                    includes kw (toLowerCase (trim s)) = false).
Proof.
  unfold normalizeEmotion.
  destruct (find _ STANDARD_EMOTIONS) as [m|] eqn:E.
  - left. exact (proj1 (find_some _ _ E)).
  - cbv zeta.
    repeat match goal with
           | |- context [if includes ?k ?t || _ then _ else _] =>
               destruct (includes k t) eqn:?; cbn [orb]; [left; in_list|]
           | |- context [if includes ?k ?t then _ else _] =>
               destruct (includes k t) eqn:?; [left; in_list|]
           end.
    right. repeat split. intros kw Hkw. unfold normalizerKeywords in Hkw.
    each_member Hkw; assumption.
Qed.

(** X1. Normalising twice is normalising once, for every string of ASCII
    characters. *)
Theorem normalizeEmotion_idempotent (s : string) :
  asciiOnly s = true ->
  normalizeEmotion (normalizeEmotion s) = normalizeEmotion s.
Proof.
  intros _.
  destruct (normalize_shape s) as [H|(E & Hfind & Hkw)].
  - now apply normalize_taxonomy_fixed.
  - rewrite E. unfold normalizeEmotion at 1.
    rewrite trim_capitalizeFirst, toLowerCase_capitalizeFirst, Hfind.
    cbv zeta. rewrite !Hkw by in_list. cbn [orb].
    apply capitalizeFirst_idempotent.
Qed.

Lemma normalizeEmotion_idempotent_witness :
  normalizeEmotion (normalizeEmotion "  mEh ") = normalizeEmotion "  mEh ".
Proof.
  apply (normalizeEmotion_idempotent "  mEh "). reflexivity.
Defined.

(** X2. A string that equals a taxonomy member once trimmed and compared
    without case normalises to that member, in its canonical casing. *)
Theorem normalizeEmotion_exact_match (m s : string) :
  In m STANDARD_EMOTIONS ->
  toLowerCase (trim s) = toLowerCase m ->
  normalizeEmotion s = m.
Proof.
  intros Hm E. unfold normalizeEmotion. rewrite E.
  unfold STANDARD_EMOTIONS in Hm. each_member Hm; reflexivity.
Qed.

Lemma normalizeEmotion_exact_match_witness :
  normalizeEmotion "  fRUSTRATED " = "Frustrated".
Proof.
  apply (normalizeEmotion_exact_match "Frustrated" "  fRUSTRATED ").
  - in_list.
  - reflexivity.
Defined.

(** X3. The normaliser returns the empty string exactly for the inputs that
    are empty once trimmed; every other input gets a non-empty label. *)
Theorem normalizeEmotion_empty_iff_blank (s : string) :
  normalizeEmotion s = "" <-> trim s = "".
Proof.
  split.
  - intro E. destruct (normalize_shape s) as [H|(E' & _)].
    + rewrite E in H. unfold STANDARD_EMOTIONS in H. each_member H; discriminate.
    + rewrite E in E'. destruct (trim s); [reflexivity | discriminate E'].
  - intro E. unfold normalizeEmotion. rewrite E. reflexivity.
Qed.

(** X4. The normaliser ignores surrounding white space, and its result never
    starts or ends with white space. *)
Theorem normalizeEmotion_trimmed (s : string) :
  normalizeEmotion (trim s) = normalizeEmotion s
  /\ trim (normalizeEmotion s) = normalizeEmotion s.
Proof.
  split.
  - unfold normalizeEmotion. now rewrite trim_idempotent.
  - destruct (normalize_shape s) as [H|(E & _)].
    + unfold STANDARD_EMOTIONS in H. each_member H;
        match goal with E : _ = normalizeEmotion s |- _ => rewrite <- E end;
        reflexivity.
    + rewrite E. apply trim_capitalizeFirst.
Qed.

(* ================================================================== *)
(** ** More on the extractor *)

Lemma startsWith_includes (p s : string) :
  startsWith p s = true -> includes p s = true.
Proof.
  destruct s as [|a r]; cbn [includes]; intro H; [exact H|]. now rewrite H.
Qed.

Lemma includes_tail (c : ascii) (p s : string) :
  includes (String c p) s = true -> includes p s = true.
Proof.
  induction s as [|a r IH]; [discriminate|].
  cbn [includes]. intro H. apply orb_prop in H. destruct H as [H|H].
  - rewrite startsWith_cons in H. apply andb_prop in H.
    rewrite (startsWith_includes _ _ (proj2 H)). apply orb_true_r.
  - rewrite (IH H). apply orb_true_r.
Qed.

Lemma taxonomy_truthy (e : string) :
  In e STANDARD_EMOTIONS -> truthy_string e = true.
Proof.
  intro H. unfold STANDARD_EMOTIONS in H. each_member H; reflexivity.
Qed.

Lemma extract_first_name (text : string) (pre post : list string) (name : string) :
  STANDARD_EMOTIONS = pre ++ name :: post ->
  occursIn name text = true ->
  (forall other, In other pre -> occursIn other text = false) ->
  extractEmotionFromText text = Some name.
Proof.
  intros Hsplit Hocc Hpre. unfold extractEmotionFromText.
  destruct text as [|c r].
  - exfalso. assert (Hin : In name STANDARD_EMOTIONS).
    { rewrite Hsplit. apply in_or_app. right. now left. }
    unfold STANDARD_EMOTIONS in Hin. each_member Hin; discriminate Hocc.
  - cbn [truthy_string String.eqb negb]. cbv zeta.
    change (fun emotion => includes (toLowerCase emotion) (toLowerCase (String c r)))
      with (fun emotion => occursIn emotion (String c r)).
    rewrite Hsplit, (find_first _ pre post name Hocc Hpre). reflexivity.
Qed.

(** X5. Whatever the extractor finds is a taxonomy member, the normaliser
    leaves it as it is, and it becomes the label of the voice or text channel. *)
Theorem extracted_label_is_canonical (s e : string) :
  extractEmotionFromText s = Some e ->
  In e STANDARD_EMOTIONS
  /\ normalizeEmotion e = e
  /\ normalizeEmotion (extracted_or_raw s) = e.
Proof.
  intro H. assert (Hin := extract_in_taxonomy s e H).
  assert (Hfix := normalize_taxonomy_fixed e Hin).
  repeat split; [exact Hin | exact Hfix|].
  unfold extracted_or_raw. now rewrite H, (taxonomy_truthy e Hin).
Qed.

Lemma extracted_label_is_canonical_witness :
  normalizeEmotion (extracted_or_raw "I was AMAZED by it") = "Surprised".
Proof.
  apply (extracted_label_is_canonical "I was AMAZED by it" "Surprised").
  reflexivity.
Defined.

(** X6. A text that contains "unhappy" (in any case) is extracted as "Happy":
    the name scan finds "happy" inside it before any keyword is tried. *)
Theorem unhappy_is_extracted_as_happy (text : string) :
  includes "unhappy" (toLowerCase text) = true ->
  extractEmotionFromText text = Some "Happy"
  /\ normalizeEmotion (extracted_or_raw text) = "Happy".
Proof.
  intro H.
  assert (E : extractEmotionFromText text = Some "Happy").
  { apply (extract_first_name text [] (tl STANDARD_EMOTIONS) "Happy").
    - reflexivity.
    - unfold occursIn. cbn [toLowerCase]. 
      exact (includes_tail _ _ _ (includes_tail _ _ _ H)).
    - intros other []. }
  split; [exact E|]. unfold extracted_or_raw. now rewrite E.
Qed.

Lemma unhappy_is_extracted_as_happy_witness :
  extractEmotionFromText "So sad and UNHAPPY today" = Some "Happy"
  /\ normalizeEmotion (extracted_or_raw "So sad and UNHAPPY today") = "Happy".
Proof.
  apply (unhappy_is_extracted_as_happy "So sad and UNHAPPY today"). reflexivity.
Defined.

(** X7. When no taxonomy name occurs in the text, the keyword table can only
    answer Happy, Angry, Fearful, Surprised or Anxious, and only through "joy",
    "upset", "afraid", "scared", "amazed" or "worried": its other keywords
    contain a taxonomy name. *)
Theorem keyword_table_reaches_five_labels (text e : string) :
  (forall name, In name STANDARD_EMOTIONS -> occursIn name text = false) ->
  extractEmotionFromText text = Some e ->
  In e ["Happy"; "Angry"; "Fearful"; "Surprised"; "Anxious"]
  /\ (includes "joy" (toLowerCase text)
      || includes "upset" (toLowerCase text)
      || includes "afraid" (toLowerCase text)
      || includes "scared" (toLowerCase text)
      || includes "amazed" (toLowerCase text)
      || includes "worried" (toLowerCase text)) = true.
Proof.
  intros Hnames. unfold extractEmotionFromText.
  destruct (negb (truthy_string text)); [discriminate|]. cbv zeta.
  rewrite find_all_false by exact Hnames.
  assert (Hkw : forall kw name,
             In name STANDARD_EMOTIONS -> toLowerCase name = kw ->
             includes kw (toLowerCase text) = false).
  { intros kw name Hin <-. exact (Hnames name Hin). }
  assert (Hun : includes "unhappy" (toLowerCase text) = false).
  { destruct (includes "unhappy" (toLowerCase text)) eqn:E; [|reflexivity].
    apply includes_tail, includes_tail in E.
    rewrite (Hkw "happy" "Happy") in E by (in_list || reflexivity).
    discriminate E. }
  rewrite (Hkw "happy" "Happy"), (Hkw "sad" "Sad"), (Hkw "angry" "Angry"),
    (Hkw "surprised" "Surprised"), (Hkw "disgusted" "Disgusted"),
    (Hkw "neutral" "Neutral"), (Hkw "calm" "Calm"), (Hkw "anxious" "Anxious"),
    (Hkw "excited" "Excited"), (Hkw "frustrated" "Frustrated"),
    (Hkw "confused" "Confused"), Hun by (in_list || reflexivity).
  cbn [orb].
  repeat match goal with
         | |- context [includes ?k ?t] => destruct (includes k t); cbn [orb]
         end;
    intros [= <-] || discriminate; (split; [in_list | reflexivity]).
Qed.

Lemma keyword_table_reaches_five_labels_witness :
  In "Angry" ["Happy"; "Angry"; "Fearful"; "Surprised"; "Anxious"]
  /\ (includes "joy" (toLowerCase "He is UPSET")
      || includes "upset" (toLowerCase "He is UPSET")
      || includes "afraid" (toLowerCase "He is UPSET")
      || includes "scared" (toLowerCase "He is UPSET")
      || includes "amazed" (toLowerCase "He is UPSET")
      || includes "worried" (toLowerCase "He is UPSET")) = true.
Proof.
  apply (keyword_table_reaches_five_labels "He is UPSET" "Angry").
  - intros name H. unfold STANDARD_EMOTIONS in H. each_member H; reflexivity.
  - reflexivity.
Defined.

(** X8. On the voice and text channels the first taxonomy name that occurs in
    the string is the channel's label; the normaliser's keyword rules are not
    consulted (a string with "calm" is labelled Calm there, not Neutral). *)
Theorem named_emotion_bypasses_normalizer_keywords
  (v : string) (pre post : list string) (name : string) :
  STANDARD_EMOTIONS = pre ++ name :: post ->
  occursIn name v = true ->
  (forall other, In other pre -> occursIn other v = false) ->
  normalizeEmotion (extracted_or_raw v) = name.
Proof.
  intros Hsplit Hocc Hpre.
  assert (E := extract_first_name v pre post name Hsplit Hocc Hpre).
  assert (Hin : In name STANDARD_EMOTIONS).
  { rewrite Hsplit. apply in_or_app. right. now left. }
  unfold extracted_or_raw. rewrite E, (taxonomy_truthy name Hin).
  now apply normalize_taxonomy_fixed.
Qed.

Lemma named_emotion_bypasses_normalizer_keywords_witness :
  normalizeEmotion (extracted_or_raw "feeling calm") = "Calm"
  /\ normalizeEmotion "feeling calm" = "Neutral".
Proof.
  split; [|reflexivity].
  apply (named_emotion_bypasses_normalizer_keywords "feeling calm"
           (firstn 9 STANDARD_EMOTIONS) (skipn 10 STANDARD_EMOTIONS) "Calm").
  - reflexivity.
  - reflexivity.
  - intros other H. cbn in H. each_member H; reflexivity.
Defined.

(* ================================================================== *)
(** ** More on the fusion engine *)

(** As [fusion_cases], with the hypotheses following the case analysis. *)
Ltac fusion_cases_in input :=
  destruct input as [in_f in_v in_t];
  unfold confidentFace, firstPresentLabel, unanimous in *;
  unfold fuseEmotions, weightedVotingFusion, majorityVotingFusion,
    weightedVotes, majorityVotes, contributions, channelLabel, channelWeight,
    facialWeight, gt in *;
  cbn [facialEmotion voiceEmotion textEmotion] in *;
  destruct in_f as [[raw_f conf_f]|];
  destruct (present_string in_v) as [raw_v|];
  destruct (present_string in_t) as [raw_t|];
  cbn [emotion confidence option_map flat_map app] in *;
  try generalize dependent (normalizeEmotion raw_f);
  try generalize dependent (normalizeEmotion (extracted_or_raw raw_v));
  try generalize dependent (normalizeEmotion (extracted_or_raw raw_t));
  intros;
  try match goal with
      | |- context [(0.6 <? ?c)%float] =>
          let E := fresh "Etier" in
          destruct (0.6 <? c)%float eqn:E; rewrite ?E in *
      | H : context [(0.6 <? ?c)%float] |- _ =>
          let E := fresh "Etier" in
          destruct (0.6 <? c)%float eqn:E; rewrite ?E in *
      end.

(** The three channels of a hypothesis quantified over channels. *)
Ltac per_channel H :=
  let Hf := fresh "Hfacial" in
  let Hv := fresh "Hvoice" in
  let Ht := fresh "Htext" in
  assert (Hf := H Facial); assert (Hv := H Voice); assert (Ht := H Text);
  cbn in Hf, Hv, Ht.

Ltac float_differ :=
  match goal with
  | H : ?a = ?b :> float |- _ =>
      apply (f_equal (fun x => PrimFloat.eqb x b)) in H;
      vm_compute in H; discriminate H
  end.

Lemma breakdown_records_labels
  (input : MultiModalEmotionInput) (strategy : Strategy) (c : Channel) :
  breakdownKey (Fused.breakdown (fuseEmotions input strategy)) c
  = channelLabel input c.
Proof.
  destruct strategy; fusion_cases input;
    match goal with
    | |- context [JsArray.sort ?f ?l] =>
        destruct (JsArray.sort f l) as [|[? ?] ?]
    end; destruct c; reflexivity.
Qed.

Lemma final_is_present_label
  (input : MultiModalEmotionInput) (strategy : Strategy) :
  contributions input <> [] ->
  exists c, channelLabel input c
            = Some (Fused.finalEmotion (fuseEmotions input strategy)).
Proof.
  intro Hpresent.
  destruct strategy; fusion_cases input; try congruence; clear Hpresent.
  all: take_head; votes_unfold; label_cases; each_entry Hin.
  all: first [ exists Facial; reflexivity
             | exists Voice; reflexivity
             | exists Text; reflexivity ].
Qed.

(** X9. Under both strategies the breakdown holds, for each channel, the
    normalised label of that channel when it is present and nothing when it is
    absent; the method name is the strategy's. *)
Theorem breakdown_mirrors_present_channels
  (input : MultiModalEmotionInput) (strategy : Strategy) :
  (forall c, breakdownKey (Fused.breakdown (fuseEmotions input strategy)) c
             = channelLabel input c)
  /\ Fused.fusionMethod (fuseEmotions input strategy)
     = match strategy with
       | weighted => "weighted-voting"
       | majority => "majority-voting"
       end.
Proof.
  split; [intro c; apply breakdown_records_labels|].
  destruct strategy; fusion_cases input;
    match goal with
    | |- context [JsArray.sort ?f ?l] =>
        destruct (JsArray.sort f l) as [|[? ?] ?]
    end; reflexivity.
Qed.

(** X10. With a channel present and no label that names a member inherited
    from [Object.prototype], the final emotion is the normalised label of a
    present channel, recorded under that channel's key of the breakdown. *)
Theorem final_emotion_comes_from_a_channel
  (input : MultiModalEmotionInput) (strategy : Strategy) :
  ownLabels input ->
  contributions input <> [] ->
  exists c,
    channelLabel input c = Some (Fused.finalEmotion (fuseEmotions input strategy))
    /\ breakdownKey (Fused.breakdown (fuseEmotions input strategy)) c
       = Some (Fused.finalEmotion (fuseEmotions input strategy)).
Proof.
  intros _ H. destruct (final_is_present_label input strategy H) as (c & Hc).
  exists c. split; [exact Hc|]. now rewrite breakdown_records_labels.
Qed.

Lemma final_emotion_comes_from_a_channel_witness :
  exists c,
    channelLabel (mkInput None (Some "so worried") (Some "fine")) c
    = Some (Fused.finalEmotion
              (fuseEmotions (mkInput None (Some "so worried") (Some "fine"))
                            majority))
    /\ breakdownKey
         (Fused.breakdown
            (fuseEmotions (mkInput None (Some "so worried") (Some "fine"))
                          majority)) c
       = Some (Fused.finalEmotion
                 (fuseEmotions (mkInput None (Some "so worried") (Some "fine"))
                               majority)).
Proof.
  apply (final_emotion_comes_from_a_channel
           (mkInput None (Some "so worried") (Some "fine")) majority).
  - own_labels.
  - discriminate.
Defined.

(** X11. When no label names a member inherited from [Object.prototype], the
    weighted confidence lies between 0.2 and 1, and with a channel present it
    is the winner's accumulated weight itself, which no label's accumulated
    weight exceeds: the clamp to 1 never changes it. *)
Theorem weighted_confidence_range (input : MultiModalEmotionInput) :
  let result := weightedVotingFusion input in
  ownLabels input ->
  ((0.2 <=? Fused.confidence result) && (Fused.confidence result <=? 1))%float
  = true
  /\ (contributions input <> [] ->
      Fused.confidence result
      = votes_or_zero (fst (weightedVotes input)) (Fused.finalEmotion result)
      /\ forall l,
          (accumulated l (contributions input) <=? Fused.confidence result)%float
          = true).
Proof.
  cbv zeta. intros _.
  assert (Hweight :
    contributions input <> [] ->
    Fused.confidence (weightedVotingFusion input)
    = accumulated (Fused.finalEmotion (weightedVotingFusion input))
                  (contributions input)).
  { intro Hpresent. fusion_cases input; try congruence; clear Hpresent.
    all: take_head; votes_unfold; label_cases; each_entry Hin.
    all: reflexivity || congruence. }
  split.
  - clear Hweight. fusion_cases input; try reflexivity.
    all: take_head; votes_unfold; label_cases; each_entry Hin; reflexivity.
  - intro Hpresent. split.
    + clear Hweight. fusion_cases input; try congruence; clear Hpresent.
      all: take_head; votes_unfold; label_cases; each_entry Hin.
      all: reflexivity || congruence.
    + intro l. rewrite (Hweight Hpresent).
      now apply weighted_winner_has_highest_weight.
Qed.

Lemma weighted_confidence_range_witness :
  Fused.confidence
    (weightedVotingFusion (mkInput None (Some "glad") (Some "Glad")))
  = votes_or_zero
      (fst (weightedVotes (mkInput None (Some "glad") (Some "Glad"))))
      (Fused.finalEmotion
         (weightedVotingFusion (mkInput None (Some "glad") (Some "Glad")))).
Proof.
  apply (proj2 (weighted_confidence_range
                  (mkInput None (Some "glad") (Some "Glad"))
                  ltac:(own_labels))).
  discriminate.
Defined.

(** The accumulator's entries made explicit: which labels coincide, which are
    array indices and how the indices compare. *)
Ltac enumerate_votes :=
  votes_unfold; label_cases;
  unfold Dict.entries, Dict.is_array_index in *;
  cbn -[String.eqb Dict.array_index] in *;
  index_cases.

(** X12. With a channel present and no label that names a member inherited
    from [Object.prototype], the majority confidence is 1, 2/3, 1/2 or 1/3,
    and it is 1 exactly when all present channels carry the same label. *)
Theorem majority_confidence_is_agreement (input : MultiModalEmotionInput) :
  ownLabels input ->
  contributions input <> [] ->
  In (Fused.confidence (majorityVotingFusion input))
     [1; 2 / 3; 1 / 2; 1 / 3]%float
  /\ (Fused.confidence (majorityVotingFusion input) = 1%float
      <-> unanimous input).
Proof.
  intros _ Hpresent. fusion_cases_in input; try congruence; clear Hpresent.
  all: enumerate_votes.
  all: split; [cbn; tauto|].
  all: split;
    [ intro H; try float_differ; intros [| |] [| |] l l' E E';
      cbn in E, E'; congruence
    | intro H;
      try reflexivity;
      exfalso;
      first [ assert (X := H Facial Voice _ _ eq_refl eq_refl); congruence
            | assert (X := H Facial Text _ _ eq_refl eq_refl); congruence
            | assert (X := H Voice Text _ _ eq_refl eq_refl); congruence ] ].
Qed.

Lemma majority_confidence_is_agreement_witness :
  In (Fused.confidence
        (majorityVotingFusion
           (mkInput (Some (mkEmotionScore "sad" 0.9)) (Some "so sad") (Some "ok"))))
     [1; 2 / 3; 1 / 2; 1 / 3]%float.
Proof.
  apply (proj1 (majority_confidence_is_agreement
                  (mkInput (Some (mkEmotionScore "sad" 0.9)) (Some "so sad")
                           (Some "ok"))
                  ltac:(own_labels) ltac:(discriminate))).
Defined.

(** X13. When all present channels carry the same label, and that label does
    not name a member inherited from [Object.prototype], it is the final
    emotion under both strategies. *)
Theorem unanimous_channels_decide
  (input : MultiModalEmotionInput) (strategy : Strategy) (c : Channel) (l : string) :
  channelLabel input c = Some l ->
  inherited l = false ->
  unanimous input ->
  Fused.finalEmotion (fuseEmotions input strategy) = l.
Proof.
  intros Hc _ Hall.
  destruct (final_is_present_label input strategy) as (c' & Hc').
  - unfold contributions. destruct input as [f v t].
    destruct c; cbn in Hc |- *.
    + destruct f; [discriminate | discriminate Hc].
    + destruct f; [discriminate|]. cbn.
      destruct (present_string v); [discriminate | discriminate Hc].
    + destruct f; [discriminate|]. cbn.
      destruct (present_string v); [discriminate|]. cbn.
      destruct (present_string t); [discriminate | discriminate Hc].
  - symmetry. exact (Hall _ _ _ _ Hc Hc').
Qed.

Lemma unanimous_channels_decide_witness :
  Fused.finalEmotion
    (fuseEmotions
       (mkInput (Some (mkEmotionScore "7" 0.2)) (Some " 7 ") None) weighted)
  = "7".
Proof.
  apply (unanimous_channels_decide _ weighted Voice "7").
  - reflexivity.
  - reflexivity.
  - intros [| |] [| |] l l' E E'; cbn in E, E'; congruence.
Defined.

(** X14. When no label names a member inherited from [Object.prototype], a
    facial channel with confidence above 0.6 decides the weighted result,
    provided voice and text do not agree on another label, or no label is an
    array index. *)
Theorem confident_face_wins (input : MultiModalEmotionInput) (lf : string) :
  ownLabels input ->
  confidentFace input = true ->
  channelLabel input Facial = Some lf ->
  (forall l, channelLabel input Voice = Some l ->
             channelLabel input Text = Some l -> l = lf)
  \/ (forall c l, channelLabel input c = Some l -> Dict.array_index l = None) ->
  Fused.finalEmotion (weightedVotingFusion input) = lf.
Proof.
  intros _ Hconf Hf Hside.
  fusion_cases_in input; try discriminate.
  all: injection Hf as ->.
  all: destruct Hside as [Hside|Hside];
    [| per_channel Hside ].
  all: enumerate_votes.
  all: try reflexivity.
  all: try (apply Hside; reflexivity).
  all: try (symmetry; apply Hside; reflexivity).
  all: try congruence.
  all: repeat match goal with
         | H : forall l, Some ?k = Some l -> Dict.array_index l = None,
           E : Dict.array_index ?k = Some _ |- _ =>
             rewrite (H k eq_refl) in E; discriminate E
         end.
Qed.

Lemma confident_face_wins_witness :
  Fused.finalEmotion
    (weightedVotingFusion
       (mkInput (Some (mkEmotionScore "angry" 0.7)) (Some "calm") (Some "Calm")))
  = "Angry".
Proof.
  apply (confident_face_wins _ "Angry").
  - own_labels.
  - reflexivity.
  - reflexivity.
  - right. intros [| |] l E; cbn in E; injection E as <-; reflexivity.
Defined.

(** X15. When voice and text agree on a label and the facial channel, with
    confidence at most 0.6, carries another one, neither label naming a member
    inherited from [Object.prototype], the weighted result is the label of
    voice and text, with confidence 0.5. *)
Theorem voice_and_text_override_weak_face
  (input : MultiModalEmotionInput) (lf l : string) :
  ownLabels input ->
  confidentFace input = false ->
  channelLabel input Facial = Some lf ->
  channelLabel input Voice = Some l ->
  channelLabel input Text = Some l ->
  l <> lf ->
  Fused.finalEmotion (weightedVotingFusion input) = l
  /\ Fused.confidence (weightedVotingFusion input) = 0.5%float.
Proof.
  intros _ Hconf Hf Hv Ht Hne.
  fusion_cases_in input; try discriminate.
  all: injection Hf as ->; injection Hv as ->; injection Ht as ->.
  all: enumerate_votes.
  all: try (split; reflexivity).
  all: congruence.
Qed.

Lemma voice_and_text_override_weak_face_witness :
  Fused.finalEmotion
    (weightedVotingFusion
       (mkInput (Some (mkEmotionScore "angry" 0.6)) (Some "calm") (Some "Calm")))
  = "Calm"
  /\ Fused.confidence
       (weightedVotingFusion
          (mkInput (Some (mkEmotionScore "angry" 0.6)) (Some "calm") (Some "Calm")))
     = 0.5%float.
Proof.
  apply (voice_and_text_override_weak_face _ "Angry" "Calm");
    try reflexivity; [own_labels | discriminate].
Defined.

(** X16. When the present channels carry pairwise different labels, none an
    array index and none the name of a member inherited from
    [Object.prototype], both strategies return the label of the first present
    channel in the order facial, voice, text. *)
Theorem disagreeing_channels_first_present_wins
  (input : MultiModalEmotionInput) (strategy : Strategy) :
  ownLabels input ->
  contributions input <> [] ->
  (forall c c' l l', c <> c' -> channelLabel input c = Some l ->
                     channelLabel input c' = Some l' -> l <> l') ->
  (forall c l, channelLabel input c = Some l -> Dict.array_index l = None) ->
  Some (Fused.finalEmotion (fuseEmotions input strategy))
  = firstPresentLabel input.
Proof.
  intros _ Hpresent Hdiff Hidx.
  destruct strategy; fusion_cases_in input; try congruence; clear Hpresent.
  all: per_channel Hidx.
  all: assert (Hfv := Hdiff Facial Voice); assert (Hft := Hdiff Facial Text);
    assert (Hvt := Hdiff Voice Text); cbn in Hfv, Hft, Hvt; clear Hdiff.
  all: enumerate_votes.
  all: try reflexivity.
  all: try (exfalso;
            first [ eapply Hfv; [discriminate | reflexivity | reflexivity | reflexivity]
                  | eapply Hft; [discriminate | reflexivity | reflexivity | reflexivity]
                  | eapply Hvt; [discriminate | reflexivity | reflexivity | reflexivity] ]).
  all: repeat match goal with
         | H : forall l, Some ?k = Some l -> Dict.array_index l = None,
           E : Dict.array_index ?k = Some _ |- _ =>
             rewrite (H k eq_refl) in E; discriminate E
         end.
Qed.

Lemma disagreeing_channels_first_present_wins_witness :
  Some (Fused.finalEmotion
          (fuseEmotions (mkInput None (Some "sad") (Some "glad")) majority))
  = Some "Sad".
Proof.
  apply (disagreeing_channels_first_present_wins
           (mkInput None (Some "sad") (Some "glad")) majority).
  - own_labels.
  - discriminate.
  - intros [| |] [| |] l l' Hc E E'; cbn in E, E'; try discriminate;
      try (now elim Hc); injection E as <-; injection E' as <-; discriminate.
  - intros [| |] l E; cbn in E; try discriminate; injection E as <-; reflexivity.
Defined.

(** X17. Under the majority strategy a label carried by two channels is the
    final emotion, whatever the third channel says, as long as no label names
    a member inherited from [Object.prototype]. *)
Theorem majority_two_agreeing_channels_win
  (input : MultiModalEmotionInput) (c c' : Channel) (l : string) :
  ownLabels input ->
  c <> c' ->
  channelLabel input c = Some l ->
  channelLabel input c' = Some l ->
  Fused.finalEmotion (majorityVotingFusion input) = l.
Proof.
  intros _ Hne Hc Hc'.
  fusion_cases_in input.
  all: destruct c, c'; try (now elim Hne); try discriminate.
  all: try injection Hc as ->; try injection Hc' as ->.
  all: enumerate_votes.
  all: reflexivity || congruence.
Qed.

Lemma majority_two_agreeing_channels_win_witness :
  Fused.finalEmotion
    (majorityVotingFusion
       (mkInput (Some (mkEmotionScore "7" 0.9)) (Some "so sad") (Some "Sad")))
  = "Sad".
Proof.
  apply (majority_two_agreeing_channels_win _ Voice Text "Sad").
  - own_labels.
  - discriminate.
  - reflexivity.
  - reflexivity.
Defined.

(* ================================================================== *)
(** ** The result formatter *)

Lemma startsWith_append (p s : string) : startsWith p (String.append p s) = true.
Proof.
  induction p as [|c p IH]; [reflexivity|].
  cbn. now rewrite Ascii.eqb_refl.
Qed.

Lemma startsWith_self (p : string) : startsWith p p = true.
Proof.
  induction p as [|c p IH]; [reflexivity|].
  cbn. now rewrite Ascii.eqb_refl.
Qed.

(** X18. The formatted result always begins with the final emotion, and is
    the final emotion alone when no breakdown entry is a non-empty string. *)
Theorem format_begins_with_final_emotion (result : Fused.FusedEmotionResult) :
  startsWith (Fused.finalEmotion result) (formatEmotionResult result) = true
  /\ (truthy_field (Breakdown.facial (Fused.breakdown result)) = false ->
      truthy_field (Breakdown.voice (Fused.breakdown result)) = false ->
      truthy_field (Breakdown.text (Fused.breakdown result)) = false ->
      formatEmotionResult result = Fused.finalEmotion result).
Proof.
  destruct result as [final conf [f v t] method].
  unfold formatEmotionResult, pushTagged, truthy_field.
  cbn [Fused.finalEmotion Fused.breakdown Breakdown.facial Breakdown.voice
         Breakdown.text].
  split.
  - destruct f as [f|]; [destruct (truthy_string f)|];
      (destruct v as [v|]; [destruct (truthy_string v)|]);
      (destruct t as [t|]; [destruct (truthy_string t)|]);
      cbn -[String.append]; apply startsWith_append || apply startsWith_self.
  - intros -> -> ->. reflexivity.
Qed.

Lemma format_begins_with_final_emotion_witness :
  formatEmotionResult
    (Fused.mk "Neutral" 0.5 (Breakdown.mk None (Some "") None) "weighted-voting")
  = "Neutral".
Proof.
  apply (proj2 (format_begins_with_final_emotion
                  (Fused.mk "Neutral" 0.5 (Breakdown.mk None (Some "") None)
                            "weighted-voting"))); reflexivity.
Defined.

Lemma contributions_of_label (input : MultiModalEmotionInput) (c : Channel) (l : string) :
  channelLabel input c = Some l -> contributions input <> [].
Proof.
  unfold contributions. destruct input as [f v t]. destruct c; cbn.
  - destruct f; [discriminate | discriminate].
  - destruct f; [discriminate|]. cbn.
    destruct (present_string v); [discriminate | discriminate].
  - destruct f; [discriminate|]. cbn.
    destruct (present_string v); [discriminate|]. cbn.
    destruct (present_string t); [discriminate | discriminate].
Qed.

(** X19. Fusing an input with one present channel, whose label does not name
    a member inherited from [Object.prototype], and formatting the result
    gives "<label> (<Tag>: <label>)" with the channel's tag, or the empty
    string when the label is empty. *)
Theorem format_of_sole_channel
  (input : MultiModalEmotionInput) (strategy : Strategy) (c : Channel) (l : string) :
  channelLabel input c = Some l ->
  inherited l = false ->
  (forall c', c' <> c -> channelLabel input c' = None) ->
  formatEmotionResult (fuseEmotions input strategy)
  = if truthy_string l
    then String.append l
           (String.append " ("
              (String.append (channelTag c) (String.append l ")")))
    else l.
Proof.
  intros Hc _ Hothers.
  assert (Hfinal : Fused.finalEmotion (fuseEmotions input strategy) = l).
  { destruct (final_is_present_label input strategy
                (contributions_of_label input c l Hc)) as (c' & Hc').
    destruct c, c'; try congruence;
      match goal with
      | H : channelLabel input ?x = Some (Fused.finalEmotion _) |- _ =>
          rewrite (Hothers x) in H by discriminate; discriminate H
      end. }
  assert (Hb := breakdown_records_labels input strategy).
  assert (Hbf := Hb Facial). assert (Hbv := Hb Voice). assert (Hbt := Hb Text).
  cbn [breakdownKey] in Hbf, Hbv, Hbt.
  unfold formatEmotionResult. rewrite Hfinal, Hbf, Hbv, Hbt.
  destruct c.
  - rewrite Hc, (Hothers Voice), (Hothers Text) by discriminate.
    unfold pushTagged, truthy_field. destruct (truthy_string l); reflexivity.
  - rewrite Hc, (Hothers Facial), (Hothers Text) by discriminate.
    unfold pushTagged, truthy_field. destruct (truthy_string l); reflexivity.
  - rewrite Hc, (Hothers Facial), (Hothers Voice) by discriminate.
    unfold pushTagged, truthy_field. destruct (truthy_string l); reflexivity.
Qed.

Lemma format_of_sole_channel_witness :
  formatEmotionResult
    (fuseEmotions (mkInput None None (Some "I am so excited")) weighted)
  = "Excited (Text: Excited)".
Proof.
  apply (format_of_sole_channel
           (mkInput None None (Some "I am so excited")) weighted Text "Excited").
  - reflexivity.
  - reflexivity.
  - intros [| |] H; try reflexivity. now elim H.
Defined.

(* ================================================================== *)
(** ** The server-side analysis flow *)

(** X20. The emotional state summary of the analysis flow is what the
    formatter returns for the flow's fused emotion and its three channel
    values: the two formatters agree. *)
Theorem flow_state_is_formatted_result
  (input : AnalyzeUserEmotion.Input)
  (voicePrompt textPrompt : Settled (option string))
  (anyConfidence : float) (anyMethod : string) :
  let out := AnalyzeUserEmotion.analyzeUserEmotionFlow input voicePrompt textPrompt in
  AnalyzeUserEmotion.emotionalState out
  = formatEmotionResult
      (Fused.mk (AnalyzeUserEmotion.fusedEmotion out) anyConfidence
         (Breakdown.mk (AnalyzeUserEmotion.outFacialEmotion out)
                       (AnalyzeUserEmotion.voiceEmotion out)
                       (AnalyzeUserEmotion.textEmotion out))
         anyMethod).
Proof.
  cbv zeta. unfold AnalyzeUserEmotion.analyzeUserEmotionFlow.
  cbn [AnalyzeUserEmotion.emotionalState AnalyzeUserEmotion.fusedEmotion
         AnalyzeUserEmotion.outFacialEmotion AnalyzeUserEmotion.voiceEmotion
         AnalyzeUserEmotion.textEmotion].
  set (rf := match AnalyzeUserEmotion.facialEmotion input with
             | Some fe => Some (emotion fe) | None => None end).
  set (rv := if truthy_field (AnalyzeUserEmotion.audioDataUri input)
             then _ else None).
  set (rt := if truthy_string (AnalyzeUserEmotion.text input) then _ else None).
  clearbody rf rv rt.
  unfold formatEmotionResult, pushTagged, truthy_field,
    AnalyzeUserEmotion.tagged, AnalyzeUserEmotion.or_else.
  cbn [Fused.finalEmotion Fused.breakdown Breakdown.facial Breakdown.voice
         Breakdown.text].
  destruct rf as [f|]; [destruct (truthy_string f) eqn:Ef|];
    (destruct rv as [v|]; [destruct (truthy_string v) eqn:Ev|]);
    (destruct rt as [t|]; [destruct (truthy_string t) eqn:Et|]);
    cbn -[String.append]; rewrite ?Ef, ?Ev, ?Et; reflexivity.
Qed.

(** X21. The fused emotion of the analysis flow is never empty, the summary
    begins with it, and the summary is "Neutral" when no channel value is a
    non-empty string (a rejected prompt leaves its channel absent). *)
Theorem flow_fused_emotion_never_empty
  (input : AnalyzeUserEmotion.Input)
  (voicePrompt textPrompt : Settled (option string)) :
  let out := AnalyzeUserEmotion.analyzeUserEmotionFlow input voicePrompt textPrompt in
  truthy_string (AnalyzeUserEmotion.fusedEmotion out) = true
  /\ startsWith (AnalyzeUserEmotion.fusedEmotion out)
                (AnalyzeUserEmotion.emotionalState out) = true
  /\ (truthy_field (AnalyzeUserEmotion.outFacialEmotion out) = false ->
      truthy_field (AnalyzeUserEmotion.voiceEmotion out) = false ->
      truthy_field (AnalyzeUserEmotion.textEmotion out) = false ->
      AnalyzeUserEmotion.emotionalState out = "Neutral").
Proof.
  cbv zeta. unfold AnalyzeUserEmotion.analyzeUserEmotionFlow.
  cbn [AnalyzeUserEmotion.emotionalState AnalyzeUserEmotion.fusedEmotion
         AnalyzeUserEmotion.outFacialEmotion AnalyzeUserEmotion.voiceEmotion
         AnalyzeUserEmotion.textEmotion].
  set (rf := match AnalyzeUserEmotion.facialEmotion input with
             | Some fe => Some (emotion fe) | None => None end).
  set (rv := if truthy_field (AnalyzeUserEmotion.audioDataUri input)
             then _ else None).
  set (rt := if truthy_string (AnalyzeUserEmotion.text input) then _ else None).
  clearbody rf rv rt.
  unfold truthy_field, AnalyzeUserEmotion.tagged, AnalyzeUserEmotion.or_else.
  destruct rf as [f|]; [destruct (truthy_string f) eqn:Ef|];
    (destruct rv as [v|]; [destruct (truthy_string v) eqn:Ev|]);
    (destruct rt as [t|]; [destruct (truthy_string t) eqn:Et|]);
    cbn -[String.append startsWith truthy_string];
    rewrite ?Ef, ?Ev, ?Et;
    (split; [assumption || reflexivity|]);
    (split; [apply startsWith_append || apply startsWith_self|]);
    intros; try discriminate; reflexivity.
Qed.

Lemma flow_fused_emotion_never_empty_witness :
  AnalyzeUserEmotion.emotionalState
    (AnalyzeUserEmotion.analyzeUserEmotionFlow
       (AnalyzeUserEmotion.mkInput None (Some "data:audio") "hello" None)
       Rejected (Resolved None))
  = "Neutral".
Proof.
  apply (proj2 (proj2 (flow_fused_emotion_never_empty
           (AnalyzeUserEmotion.mkInput None (Some "data:audio") "hello" None)
           Rejected (Resolved None)))); reflexivity.
Defined.

(* ================================================================== *)
(** ** Single-frame detection and the chat pipeline *)

(** X22. When single-frame detection returns a score, the models are loaded
    afterwards, a face was detected, and the score is the first entry of the
    expressions, in enumeration order, that no entry exceeds. *)
Theorem detectFacialExpression_result
  (modelsLoaded tiny expr landmark : bool)
  (detection : Settled (option (Dict.t float))) (r : EmotionScore) :
  fst (detectFacialExpression modelsLoaded tiny expr landmark detection) = Some r ->
  snd (detectFacialExpression modelsLoaded tiny expr landmark detection) = true
  /\ exists expressions pre post,
      detection = Resolved (Some expressions)
      /\ Dict.entries expressions = pre ++ (emotion r, confidence r) :: post
      /\ (forall x, In x pre -> (confidence r <=? snd x)%float = false)
      /\ (forall x, In x post -> (confidence r <? snd x)%float = false).
Proof.
  unfold detectFacialExpression, loadFaceApiModels.
  destruct modelsLoaded; cbn [negb];
    [|destruct (tiny && expr && landmark)]; cbn [fst snd];
    try discriminate;
    (destruct detection as [[expressions|]|]; cbn [fst snd]; try discriminate;
     destruct (Dict.entries expressions) as [|e0 rest] eqn:E;
       [discriminate|];
     destruct (reduce_higher_first_max (e0 :: rest) ltac:(discriminate))
       as (d & pre & post & Hd & Hsplit & Hpre & Hpost);
     rewrite Hd; cbn [fst snd]; intros [= <-];
     (split; [reflexivity|]);
     exists expressions, pre, post; cbn [emotion confidence];
     rewrite <- surjective_pairing; rewrite E; auto).
Qed.

Lemma detectFacialExpression_result_witness :
  snd (detectFacialExpression false true true true
         (Resolved (Some [("neutral", 0.2%float); ("happy", 0.7%float);
                          ("sad", 0.1%float)])))
  = true.
Proof.
  apply (detectFacialExpression_result false true true true
           (Resolved (Some [("neutral", 0.2%float); ("happy", 0.7%float);
                            ("sad", 0.1%float)]))
           (mkEmotionScore "happy" 0.7)).
  reflexivity.
Defined.

(** X23. Single-frame detection returns null exactly when the models were
    not loaded and a load fails, or the face-api call fails, or no face is
    found, or the expressions object is empty. *)
Theorem detectFacialExpression_null_cases
  (modelsLoaded tiny expr landmark : bool)
  (detection : Settled (option (Dict.t float))) :
  fst (detectFacialExpression modelsLoaded tiny expr landmark detection) = None
  <-> (modelsLoaded = false /\ tiny && expr && landmark = false)
      \/ detection = Rejected
      \/ detection = Resolved None
      \/ detection = Resolved (Some []).
Proof.
  unfold detectFacialExpression, loadFaceApiModels.
  assert (Hsome : forall expressions : Dict.t float,
             JsArray.reduce1 higher (Dict.entries expressions) = None
             -> expressions = []).
  { intros expressions H.
    destruct (Dict.entries expressions) as [|e0 rest] eqn:E; [|discriminate H].
    apply length_zero_iff_nil. now rewrite <- entries_length, E. }
  destruct modelsLoaded; cbn [negb];
    [|destruct (tiny && expr && landmark)]; cbn [fst snd].
  all: destruct detection as [[expressions|]|]; cbn [fst snd].
  all: try (destruct (JsArray.reduce1 higher (Dict.entries expressions))
              as [d|] eqn:E; cbn [fst]).
  all: split; intro H; auto 6; try discriminate.
  all: try (apply Hsome in E; subst; auto 6).
  all: try (destruct H as [[H _]|[H|[H|H]]]; try discriminate;
            injection H as ->; discriminate E).
  all: try (destruct H as [[_ H]|[H|[H|H]]]; try discriminate;
            injection H as ->; discriminate E).
Qed.

Lemma mapFaceApiEmotion_normalizes_alike (l : string) :
  normalizeEmotion (mapFaceApiEmotion l) = normalizeEmotion l.
Proof.
  unfold mapFaceApiEmotion, emotionMap. cbn [Dict.get].
  repeat match goal with
         | |- context [String.eqb ?k l] =>
             destruct (String.eqb_spec k l) as [<-|_]; [reflexivity|]
         end.
  reflexivity.
Qed.

(** X24. In the chat pipeline, mapping the facial label through
    [mapFaceApiEmotion] before fusion changes neither the fused result nor the
    displayed string, for a facial label that does not name a member inherited
    from [Object.prototype]: the normaliser treats the mapped and the raw
    label alike. *)
Theorem chat_mapping_does_not_change_fusion
  (faceResult : option EmotionScore) (voice text : option string) :
  (forall r, faceResult = Some r -> inherited (emotion r) = false) ->
  fst (processInteractionEmotion faceResult voice text)
  = fuseEmotions (mkInput faceResult voice text) weighted
  /\ snd (processInteractionEmotion faceResult voice text)
     = formatEmotionResult
         (fuseEmotions (mkInput faceResult voice text) weighted).
Proof.
  intros _.
  assert (Hp : forall o, present_string (present_string o) = present_string o).
  { intros [s|]; [|reflexivity]. cbn. destruct (truthy_string s) eqn:E; cbn;
      [now rewrite E | reflexivity]. }
  assert (E : fst (processInteractionEmotion faceResult voice text)
              = fuseEmotions (mkInput faceResult voice text) weighted).
  { unfold processInteractionEmotion. cbn [fst fuseEmotions].
    unfold weightedVotingFusion, weightedVotes, facialWeight.
    cbn [facialEmotion voiceEmotion textEmotion].
    rewrite !Hp.
    destruct faceResult as [[e c]|]; cbn [emotion confidence];
      rewrite ?mapFaceApiEmotion_normalizes_alike; reflexivity. }
  split; [exact E|].
  unfold processInteractionEmotion in *. cbn [fst snd] in *. now rewrite E.
Qed.

Lemma chat_mapping_does_not_change_fusion_witness :
  fst (processInteractionEmotion
         (Some (mkEmotionScore "happy" 0.9)) (Some "so sad") None)
  = fuseEmotions
      (mkInput (Some (mkEmotionScore "happy" 0.9)) (Some "so sad") None)
      weighted.
Proof.
  apply (proj1 (chat_mapping_does_not_change_fusion
                  (Some (mkEmotionScore "happy" 0.9)) (Some "so sad") None
                  ltac:(intros r [= <-]; reflexivity))).
Defined.

(** X25. In the chat pipeline a detected face-api label is recorded in the
    breakdown as its taxonomy member, one of the first seven. *)
Theorem face_api_label_reaches_breakdown_canonical
  (r : EmotionScore) (voiceEmotion textEmotion : option string) :
  In (emotion r) faceApiLabels ->
  Breakdown.facial
    (Fused.breakdown
       (fst (processInteractionEmotion (Some r) voiceEmotion textEmotion)))
  = Some (mapFaceApiEmotion (emotion r))
  /\ In (mapFaceApiEmotion (emotion r)) (firstn 7 STANDARD_EMOTIONS).
Proof.
  intro H.
  assert (Hb := breakdown_records_labels
                  (mkInput (Some (mkEmotionScore (mapFaceApiEmotion (emotion r))
                                                 (confidence r)))
                           (present_string voiceEmotion)
                           (present_string textEmotion))
                  weighted Facial).
  cbn [breakdownKey channelLabel facialEmotion option_map emotion] in Hb.
  unfold processInteractionEmotion. cbn [fst]. rewrite Hb.
  unfold faceApiLabels in H. each_member H;
    match goal with E : _ = emotion r |- _ => rewrite <- E end;
    (split; [reflexivity | in_list]).
Qed.

Lemma face_api_label_reaches_breakdown_canonical_witness :
  Breakdown.facial
    (Fused.breakdown
       (fst (processInteractionEmotion (Some (mkEmotionScore "fearful" 0.4))
               (Some "calm") None)))
  = Some "Fearful".
Proof.
  apply (proj1 (face_api_label_reaches_breakdown_canonical
                  (mkEmotionScore "fearful" 0.4) (Some "calm") None
                  ltac:(in_list))).
Defined.

(* ================================================================== *)
(** ** More on the temporal aggregator *)

Section EntriesPermutation.

Context {T : Type}.

Lemma insert_by_index_Permutation (i : N) (e : string * T) l :
  Permutation (map snd (Dict.insert_by_index i e l)) (e :: map snd l).
Proof.
  induction l as [|[j e'] l IH]; cbn [Dict.insert_by_index map snd].
  - apply Permutation_refl.
  - destruct (i <? j)%N; cbn [map snd]; [apply Permutation_refl|].
    eapply perm_trans; [apply perm_skip, IH | apply perm_swap].
Qed.

Lemma entries_Permutation (d : Dict.t T) : Permutation (Dict.entries d) d.
Proof.
  unfold Dict.entries. induction d as [|e d IH]; [apply Permutation_refl|].
  cbn [Dict.index_entries filter]. unfold Dict.is_array_index at 1.
  destruct (Dict.array_index (fst e)) as [i|]; cbn [negb].
  - eapply perm_trans;
      [apply Permutation_app_tail, insert_by_index_Permutation|].
    cbn [app]. now apply perm_skip.
  - eapply perm_trans; [apply Permutation_sym, Permutation_middle|].
    now apply perm_skip.
Qed.

Lemma get_In (d : Dict.t T) (k : string) (v : T) :
  NoDup (map fst d) -> (Dict.get d k = Some v <-> In (k, v) d).
Proof.
  induction d as [|[k' v'] d IH]; cbn [Dict.get map fst In]; intro Hnd.
  - split; [discriminate | contradiction].
  - inversion Hnd as [|? ? Hnotin Hnd']; subst.
    destruct (String.eqb_spec k' k) as [->|Hne].
    + split.
      * intros [= ->]. now left.
      * intros [[= ->]|H]; [reflexivity|].
        elim Hnotin. now apply (in_map fst) in H.
    + rewrite (IH Hnd'). split; [now right|].
      intros [[= E _]|H]; [contradiction | exact H].
Qed.

Lemma get_Permutation (d d' : Dict.t T) (k : string) :
  NoDup (map fst d) -> Permutation d d' -> Dict.get d k = Dict.get d' k.
Proof.
  intros Hnd Hp.
  assert (Hnd' : NoDup (map fst d'))
    by (eapply Permutation_NoDup; [apply Permutation_map, Hp | exact Hnd]).
  destruct (Dict.get d k) as [v|] eqn:E.
  - symmetry. apply (get_In d' k v Hnd').
    eapply Permutation_in; [exact Hp|]. now apply (get_In d k v Hnd).
  - destruct (Dict.get d' k) as [v'|] eqn:E'; [|reflexivity].
    apply (get_In d' k v' Hnd') in E'.
    apply (Permutation_in _ (Permutation_sym Hp)), (get_In d k v' Hnd) in E'.
    congruence.
Qed.

Lemma get_mapped {U : Type} (h : T -> U) (d : Dict.t T) (k : string) :
  Dict.get (map (fun e => (fst e, h (snd e))) d) k = option_map h (Dict.get d k).
Proof.
  induction d as [|[k' v'] d IH]; [reflexivity|]. cbn.
  destruct (String.eqb k' k); [reflexivity | exact IH].
Qed.

End EntriesPermutation.

Lemma collectDetections_collects (classifier : nat -> option EmotionScore) :
  forall remaining i j d,
    i <= j < i + remaining -> classifier j = Some d ->
    In d (collectDetections classifier i remaining).
Proof.
  induction remaining as [|n IH]; intros i j d Hj Hc; [lia|].
  cbn [collectDetections]. destruct (Nat.eq_dec i j) as [->|Hne].
  - rewrite Hc. now left.
  - assert (Hin : In d (collectDetections classifier (S i) n))
      by (apply (IH (S i) j d); [lia | exact Hc]).
    destruct (classifier i); [now right | exact Hin].
Qed.

(** The averaged map of a non-empty list of detections, whatever its labels. *)
Lemma averages_of_groups (ds : list EmotionScore) :
  let avgEmotions :=
    fold_left (fun avg e => Dict.set avg (fst e) (average (snd e)))
              (Dict.entries (groupsOf ds)) Dict.empty in
  avgEmotions
  = map (fun e => (fst e, average (snd e))) (Dict.entries (groupsOf ds))
  /\ NoDup (map fst avgEmotions).
Proof.
  cbv zeta.
  assert (Hnd : NoDup (map fst (Dict.entries (groupsOf ds)))).
  { eapply Permutation_NoDup;
      [apply Permutation_map, Permutation_sym, entries_Permutation|].
    rewrite groupsOf_keys. apply firstSeen_NoDup. }
  rewrite fold_set_fresh; [|exact Hnd | intros k _ []].
  unfold Dict.empty. cbn [app]. split; [reflexivity|].
  now rewrite map_map.
Qed.

Lemma aggregateDetections_some (ds : list EmotionScore) :
  ds <> [] -> exists r, aggregateDetections ds = Some r.
Proof.
  intro Hne. rewrite (aggregateDetections_unfold ds Hne). cbv zeta.
  set (avg := fold_left _ (Dict.entries (groupsOf ds)) Dict.empty).
  assert (Havg : Dict.entries avg <> []).
  { apply entries_nonempty. subst avg. apply fold_set_nonempty. right.
    apply entries_nonempty, groupsOf_nonempty, Hne. }
  destruct (reduce_higher_first_max _ Havg) as (d & _ & _ & E & _).
  rewrite E. eexists. reflexivity.
Qed.

(** X26. When no detected label names a member inherited from
    [Object.prototype], the aggregator returns nothing exactly when none of
    the [numFrames] invocations detects a face. *)
Theorem multiFrame_absent_iff_no_detection
  (classifier : nat -> option EmotionScore) (numFrames : nat) :
  (forall i d, i < numFrames -> classifier i = Some d ->
               inherited (emotion d) = false) ->
  detectFacialExpressionMultiFrame classifier numFrames = None
  <-> forall i, i < numFrames -> classifier i = None.
Proof.
  intros _.
  unfold detectFacialExpressionMultiFrame. split.
  - intros H i Hi. destruct (classifier i) as [d|] eqn:E; [|reflexivity].
    exfalso.
    assert (Hin : In d (collectDetections classifier 0 numFrames))
      by (apply (collectDetections_collects classifier numFrames 0 i d);
          [lia | exact E]).
    destruct (aggregateDetections_some (collectDetections classifier 0 numFrames))
      as (r & Hr).
    + intro Hnil. rewrite Hnil in Hin. exact Hin.
    + congruence.
  - intro H. rewrite collectDetections_nothing; [reflexivity|].
    intros j Hj. apply H. lia.
Qed.

Lemma multiFrame_absent_iff_no_detection_witness :
  detectFacialExpressionMultiFrame
    (fun i => match i with
              | 0%nat => None
              | _ => Some (mkEmotionScore "happy" 0.9)
              end) 2
  <> None.
Proof.
  set (classifier := fun i : nat =>
                       match i with
                       | 0%nat => None
                       | _ => Some (mkEmotionScore "happy" 0.9)
                       end).
  assert (Hown : forall i d, (i < 2)%nat -> classifier i = Some d ->
                             inherited (emotion d) = false).
  { intros [|[|j]] d Hj E; cbn in E; try discriminate E; try lia.
    injection E as <-. reflexivity. }
  intro Hnone.
  assert (H := proj1 (multiFrame_absent_iff_no_detection classifier 2 Hown)
                 Hnone 1%nat ltac:(lia)).
  discriminate H.
Defined.

(** X27. Whatever the labels, the averaged map of a result has distinct keys,
    holds for each label seen the mean of its confidences and nothing for any
    other label, and holds the dominant confidence under the dominant label. *)
Theorem allEmotions_holds_every_mean
  (detections : list EmotionScore) (r : MultiFrame.result) :
  aggregateDetections detections = Some r ->
  NoDup (map fst (MultiFrame.allEmotions r))
  /\ (forall l,
         Dict.get (MultiFrame.allEmotions r) l
         = if existsb (String.eqb l) (map emotion detections)
           then Some (average (confidencesOf l detections))
           else None)
  /\ Dict.get (MultiFrame.allEmotions r) (MultiFrame.emotion r)
     = Some (MultiFrame.confidence r).
Proof.
  destruct detections as [|d0 ds0] eqn:Eds; [discriminate|]. rewrite <- Eds.
  rewrite aggregateDetections_unfold by (rewrite Eds; discriminate).
  cbv zeta.
  destruct (averages_of_groups detections) as (Havg & Hnd).
  cbv zeta in Havg, Hnd.
  set (avg := fold_left _ (Dict.entries (groupsOf detections)) Dict.empty) in *.
  destruct (JsArray.reduce1 higher (Dict.entries avg)) as [dom|] eqn:E;
    [|discriminate].
  intros [= <-]. cbn [MultiFrame.allEmotions MultiFrame.emotion
                        MultiFrame.confidence].
  split; [exact Hnd|]. split.
  - intro l. rewrite Havg, get_mapped.
    rewrite (get_Permutation (Dict.entries (groupsOf detections))
                             (groupsOf detections)).
    + unfold groupsOf. rewrite get_keyed.
      assert (Hex : existsb (String.eqb l) (firstSeen (map emotion detections))
                    = existsb (String.eqb l) (map emotion detections)).
      { apply eq_true_iff_eq. rewrite !existsb_eqb_In. apply firstSeen_In. }
      rewrite Hex.
      destruct (existsb (String.eqb l) (map emotion detections)); reflexivity.
    + eapply Permutation_NoDup;
        [apply Permutation_map, Permutation_sym, entries_Permutation|].
      rewrite groupsOf_keys. apply firstSeen_NoDup.
    + apply entries_Permutation.
  - apply (get_In avg _ _ Hnd). rewrite <- surjective_pairing.
    apply entries_In. now apply reduce_higher_In.
Qed.

Lemma allEmotions_holds_every_mean_witness :
  Dict.get [("7", 0.5%float); ("zzz", 0.25%float)] "zzz"
  = (if existsb (String.eqb "zzz")
          (map emotion [mkEmotionScore "zzz" 0.25; mkEmotionScore "7" 0.5])
     then Some (average (confidencesOf "zzz"
                  [mkEmotionScore "zzz" 0.25; mkEmotionScore "7" 0.5]))
     else None).
Proof.
  apply (proj1 (proj2 (allEmotions_holds_every_mean
           [mkEmotionScore "zzz" 0.25; mkEmotionScore "7" 0.5]
           (MultiFrame.mk "7" 0.5 [("7", 0.5%float); ("zzz", 0.25%float)])
           eq_refl)) "zzz").
Defined.

Lemma firstSeen_constant (l : string) (L : list string) :
  L <> [] -> (forall x, In x L -> x = l) -> firstSeen L = [l].
Proof.
  induction L as [|a L IH]; [congruence|]. intros _ H.
  assert (Ha : a = l) by (apply H; now left). subst a.
  cbn [firstSeen]. f_equal. destruct L as [|b L]; [reflexivity|].
  rewrite IH; [|discriminate | intros x Hx; apply H; now right].
  cbn. now rewrite String.eqb_refl.
Qed.

(** X28. When all samples carry one label, which does not name a member
    inherited from [Object.prototype], the result is that label with the mean
    of all confidences, and the averaged map has that single entry. *)
Theorem single_label_run (detections : list EmotionScore) (l : string) :
  detections <> [] ->
  inherited l = false ->
  (forall d, In d detections -> emotion d = l) ->
  aggregateDetections detections
  = Some (MultiFrame.mk l (average (map confidence detections))
            [(l, average (map confidence detections))]).
Proof.
  intros Hne _ Hall. rewrite (aggregateDetections_unfold detections Hne).
  assert (Hg : groupsOf detections = [(l, map confidence detections)]).
  { unfold groupsOf. rewrite (firstSeen_constant l).
    - cbn [map]. do 2 f_equal. unfold confidencesOf. f_equal.
      apply forallb_filter_id. apply forallb_forall. intros d Hd.
      rewrite (Hall d Hd). apply String.eqb_refl.
    - destruct detections; [congruence | discriminate].
    - intros x Hx. apply in_map_iff in Hx. destruct Hx as (d & <- & Hd).
      now apply Hall. }
  rewrite Hg. cbv zeta. rewrite entries_singleton. cbn [fold_left fst snd].
  unfold Dict.empty. cbn [Dict.set]. rewrite entries_singleton. reflexivity.
Qed.

Lemma single_label_run_witness :
  aggregateDetections [mkEmotionScore "happy" 0.5; mkEmotionScore "happy" 0.25]
  = Some (MultiFrame.mk "happy" 0.375 [("happy", 0.375%float)]).
Proof.
  apply (single_label_run
           [mkEmotionScore "happy" 0.5; mkEmotionScore "happy" 0.25] "happy").
  - discriminate.
  - reflexivity.
  - intros d [<-|[<-|[]]]; reflexivity.
Defined.
